(** * llama-swap-setup: the manifest-driven download orchestrator of [cli.py]

    A shallow embedding of [src/cli.py]: the pydantic manifest schema
    ([ModelsConfig] and its entry classes), [pathlib]'s pure path algebra,
    the fetcher [_download_file], the per-entry dispatcher
    [download_model_files] and the [download-models] command, run over an
    explicit world (environment, working directory, file system, network
    behaviour and a trace of the I/O performed).

    Commands are functions from a world to a result (a value or a raised
    exception) and the world they leave.  What the libraries do is written
    out as far as the program depends on it: [pathlib] parses and joins
    POSIX paths, pydantic (version 2, lax mode) validates every field and
    collects all errors, [requests] either fails to connect or serves a
    status, an optional content length and a stream of chunks that may
    break.  The template rendering of [inject-models] is not part of the
    download path and is left out. *)

From Stdlib Require Import ZArith NArith Ascii String List Lia Bool.
From stdpp Require Import base option list strings gmap.

Local Open Scope string_scope.
Local Open Scope list_scope.

(** ** Python strings *)

(** [s.split(sep)] for a one-character separator. *)
Fixpoint str_split (sep : ascii) (s : string) : list string :=
  match s with
  | EmptyString => [EmptyString]
  | String c r =>
      if Ascii.eqb c sep then EmptyString :: str_split sep r
      else match str_split sep r with
           | [] => [String c EmptyString]
           | h :: t => String c h :: t
           end
  end.

(** [s.startswith(p)]. *)
Definition startswith (p s : string) : bool := String.prefix p s.

(** [s.replace(old, "")]: the non-overlapping occurrences of [old], found
    from the left, are deleted.  [skip] counts the characters of an
    occurrence that are still to be dropped. *)
Fixpoint str_remove_go (old : string) (skip : nat) (s : string) : string :=
  match s with
  | EmptyString => EmptyString
  | String c r =>
      match skip with
      | S k => str_remove_go old k r
      | O =>
          if String.prefix old s
          then str_remove_go old (String.length old - 1) r
          else String c (str_remove_go old 0 r)
      end
  end.

Definition str_remove (old s : string) : string :=
  match old with
  | EmptyString => s
  | _ => str_remove_go old 0 s
  end.

(** Truthiness of an [Optional[str]]: [None] and the empty string are falsy. *)
Definition truthy (o : option string) : bool :=
  match o with
  | Some (String _ _) => true
  | _ => false
  end.

(** ** [pathlib]: pure POSIX paths *)

Module PurePath.

(** A parsed path: the root ([""], ["/"] or ["//"]) and the components. *)
Record t := mk { root : string; parts : list string }.

#[global] Instance t_eq_dec : EqDecision t.
Proof. solve_decision. Defined.

(** [posixpath.splitroot]. *)
Definition splitroot (p : string) : string * string :=
  match p with
  | String "/" (String "/" (String "/" r)) => ("/", String "/" (String "/" r))
  | String "/" (String "/" r) => ("//", r)
  | String "/" r => ("/", r)
  | _ => ("", p)
  end.

Definition keep_part (x : string) : bool :=
  negb (String.eqb x "") && negb (String.eqb x ".").

(** [Path(s)]: empty and ["."] components are dropped. *)
Definition parse (s : string) : t :=
  let '(r, rel) := splitroot s in
  mk r (List.filter keep_part (str_split "/" rel)).

(** [a / b]: an anchored right operand replaces the left one. *)
Definition join (a b : t) : t :=
  match root b with
  | EmptyString => mk (root a) (parts a ++ parts b)
  | _ => b
  end.

(** [str(p)]. *)
Definition to_string (p : t) : string :=
  match root p, parts p with
  | EmptyString, [] => "."
  | r, ps => r +:+ String.concat "/" ps
  end.

(** [p.name]: the final component, or [""]. *)
Definition name (p : t) : string := List.last (parts p) "".

End PurePath.

Abbreviation Path := PurePath.parse.
Infix "</>" := PurePath.join (at level 40, left associativity).

(** [os.path.join(a, b)] for two arguments. *)
Definition os_path_join (a b : string) : string :=
  if startswith "/" b then b
  else if String.eqb a "" then b
  else if String.eqb (String.substring (String.length a - 1) 1 a) "/" then a +:+ b
  else a +:+ "/" +:+ b.

(** ** The manifest schema (pydantic models of [cli.py]) *)

(** What [json.loads] returns.  A [PyDict] lists its items in insertion
    order; its keys are pairwise distinct, and [dict_get] reads the item
    of a key. *)
#[warnings="-register-all"]
Inductive pyval :=
| PyNone
| PyBool (b : bool)
| PyInt (z : Z)
| PyFloat (repr : string)
| PyStr (s : string)
| PyList (l : list pyval)
| PyDict (d : list (string * pyval)).

Definition dict_get (k : string) (d : list (string * pyval)) : option pyval :=
  snd <$> List.find (fun kv => String.eqb (fst kv) k) d.

Inductive ModelType := GGUF | SAFETENSORS.

Definition ModelType_value (t : ModelType) : string :=
  match t with
  | GGUF => "gguf"
  | SAFETENSORS => "safetensors"
  end.

Record BaseModelConfig := {
  name : string;
  description : string;
  runtime_kwargs : list (string * string)
}.

Record GGUFModelsConfig := {
  gguf_base :> BaseModelConfig;
  gguf_model_type : ModelType;
  url : string;
  mmproj : option string
}.

Record SafetensorsModelsConfig := {
  safetensors_base :> BaseModelConfig;
  safetensors_model_type : ModelType
}.

Record ModelsConfig := {
  ggufs : list GGUFModelsConfig;
  safetensors : list SafetensorsModelsConfig
}.

(** *** pydantic validation

    The classes declare plain annotated fields and no validator of their
    own, so constructing one runs pydantic's field validation (version 2,
    lax mode): every field is checked, unknown keys are ignored, and the
    [ValidationError] lists one [ErrorDetails] per offending value, located
    by the path of keys and indices that leads to it. *)

Inductive loc_item := LKey (k : string) | LIdx (i : nat).

Inductive error_type :=
| E_missing        (* a required field is absent *)
| E_string_type    (* a [str] was expected *)
| E_list_type      (* a [List[...]] was expected *)
| E_dict_type      (* a [Dict[...]] was expected *)
| E_model_type     (* a mapping (or instance) of the model was expected *)
| E_enum.          (* not a value of the [Enum] *)

Record ErrorDetails := { err_loc : list loc_item; err_type : error_type }.

(** Either the errors found (never none) or the validated value. *)
Definition vresult (A : Type) : Type := list ErrorDetails + A.

Definition errors_of {A} (r : vresult A) : list ErrorDetails :=
  match r with
  | inl es => es
  | inr _ => []
  end.

Definition fail_with {A} (t : error_type) : vresult A :=
  inl [ {| err_loc := []; err_type := t |} ].

Definition at_loc {A} (i : loc_item) (r : vresult A) : vresult A :=
  match r with
  | inl es => inl (List.map (fun e => {| err_loc := i :: err_loc e; err_type := err_type e |}) es)
  | inr a => inr a
  end.

(** Fields are validated one after the other and their errors add up. *)
Definition vap {A B} (f : vresult (A -> B)) (a : vresult A) : vresult B :=
  match f, a with
  | inr g, inr x => inr (g x)
  | _, _ => inl (errors_of f ++ errors_of a)
  end.

Infix "<&>" := vap (at level 61, left associativity).
Arguments vap : simpl never.

Fixpoint validate_items {A} (val : pyval -> vresult A) (i : nat) (l : list pyval)
  : vresult (list A) :=
  match l with
  | [] => inr []
  | x :: r => inr cons <&> at_loc (LIdx i) (val x) <&> validate_items val (S i) r
  end.

Fixpoint validate_values {A} (val : pyval -> vresult A) (d : list (string * pyval))
  : vresult (list (string * A)) :=
  match d with
  | [] => inr []
  | (k, x) :: r =>
      inr (fun a => cons (k, a)) <&> at_loc (LKey k) (val x) <&> validate_values val r
  end.

Definition validate_str (v : pyval) : vresult string :=
  match v with
  | PyStr s => inr s
  | _ => fail_with E_string_type
  end.

Definition validate_optional_str (v : pyval) : vresult (option string) :=
  match v with
  | PyNone => inr None
  | _ => inr Some <&> validate_str v
  end.

Definition validate_ModelType (v : pyval) : vresult ModelType :=
  match v with
  | PyStr s =>
      if String.eqb s "gguf" then inr GGUF
      else if String.eqb s "safetensors" then inr SAFETENSORS
      else fail_with E_enum
  | _ => fail_with E_enum
  end.

Definition validate_list {A} (val : pyval -> vresult A) (v : pyval) : vresult (list A) :=
  match v with
  | PyList l => validate_items val 0 l
  | _ => fail_with E_list_type
  end.

Definition validate_dict_str_str (v : pyval) : vresult (list (string * string)) :=
  match v with
  | PyDict d => validate_values validate_str d
  | _ => fail_with E_dict_type
  end.

(** [Field(...)]: a field without default is required. *)
Definition required {A} (k : string) (val : pyval -> vresult A)
    (d : list (string * pyval)) : vresult A :=
  match dict_get k d with
  | Some v => at_loc (LKey k) (val v)
  | None => at_loc (LKey k) (fail_with E_missing)
  end.

Definition with_default {A} (k : string) (dflt : A) (val : pyval -> vresult A)
    (d : list (string * pyval)) : vresult A :=
  match dict_get k d with
  | Some v => at_loc (LKey k) (val v)
  | None => inr dflt
  end.

Definition BaseModelConfig_fields (d : list (string * pyval)) : vresult BaseModelConfig :=
  inr Build_BaseModelConfig
    <&> required "name" validate_str d
    <&> required "description" validate_str d
    <&> with_default "runtime_kwargs" [] validate_dict_str_str d.

(** A [GGUFModelsConfig] built from the keyword arguments [d]. *)
Definition GGUFModelsConfig_fields (d : list (string * pyval)) : vresult GGUFModelsConfig :=
  inr Build_GGUFModelsConfig
    <&> BaseModelConfig_fields d
    <&> with_default "model_type" GGUF validate_ModelType d
    <&> required "url" validate_str d
    <&> with_default "mmproj" None validate_optional_str d.

(** A [SafetensorsModelsConfig] built from the keyword arguments [d]. *)
Definition SafetensorsModelsConfig_fields (d : list (string * pyval))
  : vresult SafetensorsModelsConfig :=
  inr Build_SafetensorsModelsConfig
    <&> BaseModelConfig_fields d
    <&> with_default "model_type" SAFETENSORS validate_ModelType d.

(** A model that is the value of a field: the input has to be a mapping. *)
Definition validate_model {A} (fields : list (string * pyval) -> vresult A) (v : pyval)
  : vresult A :=
  match v with
  | PyDict d => fields d
  | _ => fail_with E_model_type
  end.

(** A [ModelsConfig] built from the keyword arguments [d]. *)
Definition ModelsConfig_fields (d : list (string * pyval)) : vresult ModelsConfig :=
  inr Build_ModelsConfig
    <&> required "ggufs" (validate_list (validate_model GGUFModelsConfig_fields)) d
    <&> required "safetensors" (validate_list (validate_model SafetensorsModelsConfig_fields)) d.

(** ** The world the commands run in *)

(** File contents and transferred chunks are byte strings. *)
Definition bytes := string.

Inductive node := File (content : bytes) | Dir.

(** What [int(response.headers.get('content-length', 0))] meets. *)
Inductive content_length := CL_absent | CL_int (n : Z) | CL_malformed.

(** The answer of a server: [iter_content] are the chunks the body
    iterator yields, and [stream_breaks] tells whether the connection
    fails once they have been delivered. *)
Record response := {
  status_code : Z;
  headers_content_length : content_length;
  iter_content : list bytes;
  stream_breaks : bool
}.

Inductive endpoint := Unreachable | Serves (r : response).

(** The observable actions, in the order they happen. *)
Inductive event :=
| EvLog (msg : string)
| EvPrint (msg : string)
| EvMkdir (p : list string)
| EvOpenRead (p : list string)
| EvOpenWrite (p : list string)
| EvWrite (p : list string) (chunk : bytes)
| EvGet (url : string)
| EvProgress (n : nat).

(** Network or file transfer, as opposed to logging and directory layout. *)
Definition is_transfer (e : event) : bool :=
  match e with
  | EvOpenRead _ | EvOpenWrite _ | EvWrite _ _ | EvGet _ => true
  | _ => false
  end.

(** The file system maps the component list of an absolute path to what
    is there; the root directory [[]] always exists, and what is there
    lies in directories: a regular file has nothing below it.  Paths are
    taken literally: there are no symbolic links and [".."] is a name like
    any other. *)
Record world := {
  environ : gmap string string;
  cwd : string;
  fs : gmap (list string) node;
  net : string -> endpoint;
  trace : list event
}.

Definition node_at (fsys : gmap (list string) node) (k : list string) : option node :=
  match k with
  | [] => Some Dir
  | _ => fsys !! k
  end.

Definition set_fs (w : world) (f : gmap (list string) node) : world :=
  {| environ := environ w; cwd := cwd w; fs := f; net := net w; trace := trace w |}.

Definition add_event (w : world) (e : event) : world :=
  {| environ := environ w; cwd := cwd w; fs := fs w; net := net w; trace := trace w ++ [e] |}.

(** ** Exceptions and the command monad *)

Inductive exn :=
| FileNotFoundError
| IsADirectoryError
| NotADirectoryError
| FileExistsError
| ValueError
| TypeError
| NotImplementedError
| JSONDecodeError
| ValidationError (errors : list ErrorDetails)
(* the subclasses of [requests.exceptions.RequestException] that occur *)
| ConnectionError
| HTTPError
| ChunkedEncodingError.

(** Whether a regular file stands where a directory above [k] should be. *)
Definition file_above (fsys : gmap (list string) node) (k : list string) : bool :=
  List.existsb
    (fun n => match node_at fsys (take n k) with
              | Some (File _) => true
              | _ => false
              end)
    (seq 0 (List.length k)).

(** What the system answers for a path with nothing at it: [ENOTDIR] when
    a component of the path is a regular file, [ENOENT] otherwise. *)
Definition missing_error (fsys : gmap (list string) node) (k : list string) : exn :=
  if file_above fsys k then NotADirectoryError else FileNotFoundError.

Definition is_RequestException (e : exn) : bool :=
  match e with
  | ConnectionError | HTTPError | ChunkedEncodingError => true
  | _ => false
  end.

Inductive result (A : Type) :=
| Ok (a : A)
| Raise (e : exn).
Arguments Ok {A} a.
Arguments Raise {A} e.

(** A command returns or raises, and leaves a world behind either way. *)
Definition M (A : Type) : Type := world -> result A * world.

Definition ret {A} (a : A) : M A := fun w => (Ok a, w).

Definition bind {A B} (m : M A) (k : A -> M B) : M B :=
  fun w =>
    match m w with
    | (Ok a, w') => k a w'
    | (Raise e, w') => (Raise e, w')
    end.

Definition raise {A} (e : exn) : M A := fun w => (Raise e, w).

(** [try: body / except ...: handler]; the handler re-raises what it does
    not catch. *)
Definition try_except {A} (body : M A) (handler : exn -> M A) : M A :=
  fun w =>
    match body w with
    | (Ok a, w') => (Ok a, w')
    | (Raise e, w') => handler e w'
    end.

Declare Scope cmd_scope.
Delimit Scope cmd_scope with cmd.
Notation "x <- m ;; k" := (bind m (fun x => k))
  (at level 100, m at next level, right associativity) : cmd_scope.
Notation "m ;; k" := (bind m (fun _ => k))
  (at level 100, right associativity) : cmd_scope.
Local Open Scope cmd_scope.

Definition emit (e : event) : M unit := fun w => (Ok tt, add_event w e).

Fixpoint for_each {A} (l : list A) (body : A -> M unit) : M unit :=
  match l with
  | [] => ret tt
  | x :: r => body x ;; for_each r body
  end.

Definition logger_info (msg : string) : M unit := emit (EvLog msg).
Definition logger_error (msg : string) : M unit := emit (EvLog msg).
Definition print (msg : string) : M unit := emit (EvPrint msg).

(** ** Operating system *)

(** [os.getenv(k, default)]. *)
Definition os_getenv (k dflt : string) : M string :=
  fun w => (Ok (default dflt (environ w !! k)), w).

Definition os_getcwd : M string := fun w => (Ok (cwd w), w).

(** Where a path leads: relative paths start at the working directory. *)
Definition locate (w : world) (p : PurePath.t) : list string :=
  PurePath.parts (Path (cwd w) </> p).

(** The components the system walks for a path given as a string, empty
    and ["."] components apart; the empty string names nothing. *)
Definition locate_str (w : world) (s : string) : option (list string) :=
  match s with
  | EmptyString => None
  | _ => Some (locate w (Path s))
  end.

(** A path given as a string is handed to the system as it is: when its
    last component is empty (a trailing slash) or ["."], it names what it
    leads to only if that is a directory. *)
Definition needs_directory (s : string) : bool :=
  negb (PurePath.keep_part (List.last (str_split "/" s) "")).

(** [p.exists()]. *)
Definition path_exists (p : PurePath.t) : M bool :=
  fun w => (Ok (bool_decide (is_Some (node_at (fs w) (locate w p)))), w).

(** [os.path.exists(s)]: whether [os.stat(s)] succeeds. *)
Definition os_path_exists (s : string) : M bool :=
  fun w =>
    (Ok match locate_str w s ≫= node_at (fs w) with
        | Some (File _) => negb (needs_directory s)
        | Some Dir => true
        | None => false
        end, w).

(** [os.path.getsize(s)]; a directory reports the size of its own entry,
    which no caller gets to use, since opening a directory raises. *)
Definition os_path_getsize (s : string) : M nat :=
  fun w =>
    match locate_str w s with
    | None => (Raise FileNotFoundError, w)
    | Some k =>
        match node_at (fs w) k with
        | Some (File c) =>
            if needs_directory s then (Raise NotADirectoryError, w)
            else (Ok (String.length c), w)
        | Some Dir => (Ok 4096, w)
        | None => (Raise (missing_error (fs w) k), w)
        end
    end.

(** [p.mkdir(parents=True, exist_ok=True)]: the missing directories on the
    way to [pre ++ rest] are created from the top; a file on the way is an
    error. *)
Fixpoint mkdir_from (pre rest : list string) : M unit :=
  match rest with
  | [] => ret tt
  | c :: rest' =>
      let k := pre ++ [c] in
      fun w =>
        match node_at (fs w) k with
        | Some Dir => mkdir_from k rest' w
        | Some (File _) =>
            (Raise (match rest' with [] => FileExistsError | _ => NotADirectoryError end), w)
        | None => mkdir_from k rest' (add_event (set_fs w (<[k := Dir]> (fs w))) (EvMkdir k))
        end
  end.

Definition mkdir_parents_exist_ok (p : PurePath.t) : M unit :=
  fun w => mkdir_from [] (locate w p) w.

(** [open(s, 'rb')] together with what the handle will read. *)
Definition open_rb (s : string) : M bytes :=
  fun w =>
    match locate_str w s with
    | None => (Raise FileNotFoundError, w)
    | Some k =>
        let w' := add_event w (EvOpenRead k) in
        match node_at (fs w) k with
        | Some (File c) =>
            if needs_directory s then (Raise NotADirectoryError, w') else (Ok c, w')
        | Some Dir => (Raise IsADirectoryError, w')
        | None => (Raise (missing_error (fs w) k), w')
        end
    end.

(** [open(p, 'wb')]: the file is created empty, or truncated; its
    directory has to exist. *)
Definition open_wb (p : PurePath.t) : M unit :=
  fun w =>
    let k := locate w p in
    let w' := add_event w (EvOpenWrite k) in
    match node_at (fs w) k with
    | Some Dir => (Raise IsADirectoryError, w')
    | Some (File _) => (Ok tt, set_fs w' (<[k := File ""]> (fs w)))
    | None =>
        match node_at (fs w) (removelast k) with
        | Some Dir => (Ok tt, set_fs w' (<[k := File ""]> (fs w)))
        | Some (File _) => (Raise NotADirectoryError, w')
        | None => (Raise (missing_error (fs w) (removelast k)), w')
        end
    end.

(** [f.write(chunk)] on the handle opened at [p]. *)
Definition write (p : PurePath.t) (chunk : bytes) : M unit :=
  fun w =>
    let k := locate w p in
    let old := match fs w !! k with Some (File c) => c | _ => "" end in
    (Ok tt, add_event (set_fs w (<[k := File (old +:+ chunk)]> (fs w))) (EvWrite k chunk)).

(** [pbar.update(n)]. *)
Definition pbar_update (n : nat) : M unit := emit (EvProgress n).

(** The first [n] bytes and the rest. *)
Fixpoint take_drop (n : N) (s : bytes) : bytes * bytes :=
  match s with
  | EmptyString => (EmptyString, EmptyString)
  | String c r =>
      if N.eqb n 0 then (EmptyString, s)
      else let '(h, t) := take_drop (N.pred n) r in (String c h, t)
  end.

(** The chunks [iter(lambda: src.read(n), b"")] yields: reads of [n] bytes
    until one comes back empty. *)
Fixpoint read_chunks_go (fuel : nat) (n : N) (s : bytes) : list bytes :=
  match fuel with
  | O => []
  | S fuel' =>
      match take_drop n s with
      | (EmptyString, _) => []
      | (h, t) => h :: read_chunks_go fuel' n t
      end
  end.

Definition read_chunks (n : N) (s : bytes) : list bytes :=
  read_chunks_go (String.length s) n s.

(** [shutil.copyfileobj(src, dst)]: [COPY_BUFSIZE] bytes at a time. *)
Definition COPY_BUFSIZE : N := 65536.

Definition shutil_copyfileobj (src : bytes) (dst : PurePath.t) : M unit :=
  for_each (read_chunks COPY_BUFSIZE src) (fun chunk => write dst chunk).

(** ** HTTP client *)

(** [requests.get(url, stream=True)]. *)
Definition requests_get (url : string) : M response :=
  fun w =>
    let w' := add_event w (EvGet url) in
    match net w url with
    | Unreachable => (Raise ConnectionError, w')
    | Serves r => (Ok r, w')
    end.

(** [response.raise_for_status()]. *)
Definition raise_for_status (r : response) : M unit :=
  if (400 <=? status_code r)%Z && (status_code r <? 600)%Z then raise HTTPError else ret tt.

Definition int_content_length (r : response) : M Z :=
  match headers_content_length r with
  | CL_absent => ret 0%Z
  | CL_int n => ret n
  | CL_malformed => raise ValueError
  end.

(** [for chunk in response.iter_content(...): body(chunk)], the iteration
    failing at the end of a broken stream. *)
Definition for_iter_content (r : response) (body : bytes -> M unit) : M unit :=
  for_each (iter_content r) body ;;
  if stream_breaks r then raise ChunkedEncodingError else ret tt.

(** ** The fetcher and the orchestrator of [cli.py] *)

(** The size of a read and of a body chunk, [1024 * 1024]. *)
Definition CHUNK_SIZE : N := 1024 * 1024.

(** [get_models_directory] (lines 117-119). *)
Definition get_models_directory : M PurePath.t :=
  models_dir <- os_getenv "MODELS_DIR" "models" ;;
  here <- os_getcwd ;;
  ret (Path here </> Path models_dir).

(** The [file://] branch of [_download_file] (lines 128-139): both files
    are opened, the source first, and the bytes copied with a progress bar
    when the source has a known positive size, in one go otherwise. *)
Definition download_local (url : string) (destination : PurePath.t) : M unit :=
  let local_path := str_remove "file://" url in
  found <- os_path_exists local_path ;;
  total_size <- (if found : bool
                 then n <- os_path_getsize local_path ;; ret (Some n)
                 else ret None) ;;
  src <- open_rb local_path ;;
  open_wb destination ;;
  match total_size with
  | Some (S _) =>
      for_each (read_chunks CHUNK_SIZE src)
        (fun chunk => write destination chunk ;; pbar_update (String.length chunk))
  | _ => shutil_copyfileobj src destination
  end.

(** The remote branch of [_download_file] (lines 142-157): the status is
    checked and the content length read before the destination is opened;
    empty chunks are skipped. *)
Definition download_remote (url : string) (destination : PurePath.t) : M unit :=
  response <- requests_get url ;;
  raise_for_status response ;;
  total_size <- int_content_length response ;;
  open_wb destination ;;
  if (0 <? total_size)%Z
  then for_iter_content response (fun chunk =>
         match chunk with
         | EmptyString => ret tt
         | _ => write destination chunk ;; pbar_update (String.length chunk)
         end)
  else for_iter_content response (fun chunk =>
         match chunk with
         | EmptyString => ret tt
         | _ => write destination chunk
         end).

(** The body of the [try] statement. *)
Definition transfer (url : string) (destination : PurePath.t) : M unit :=
  if startswith "file://" url
  then download_local url destination
  else download_remote url destination.

(** [_download_file] (lines 121-159): nothing is done when the
    destination exists; the errors of the HTTP client are printed and
    dropped, any other exception goes up. *)
Definition _download_file (url : string) (destination : PurePath.t) : M unit :=
  present <- path_exists destination ;;
  if present : bool
  then logger_info "File already exists, skipping download."
  else
    try_except (transfer url destination)
      (fun e =>
         if is_RequestException e
         then print "Error downloading the file:"
         else raise e).

(** What [download_model_files] may be handed: an instance of one of the
    two entry classes, or of neither. *)
Inductive model :=
| OfGGUF (m : GGUFModelsConfig)
| OfSafetensors (m : SafetensorsModelsConfig)
| OfOther.

(** [download_model_files] (lines 161-178). *)
Definition download_model_files (m : model) : M unit :=
  models_directory <- get_models_directory ;;
  match m with
  | OfGGUF g =>
      let model_directory :=
        models_directory </> Path (ModelType_value (gguf_model_type g)) </> Path (name g) in
      mkdir_parents_exist_ok model_directory ;;
      _download_file (url g) (model_directory </> Path (name g +:+ ".gguf")) ;;
      match mmproj g with
      | Some (String _ _ as projector) =>
          _download_file projector (model_directory </> Path ("mmproj_" +:+ name g +:+ ".gguf"))
      | _ => ret tt
      end
  | OfSafetensors s =>
      let model_directory :=
        models_directory </> Path (ModelType_value (safetensors_model_type s)) in
      mkdir_parents_exist_ok model_directory ;;
      raise NotImplementedError
  | OfOther => raise ValueError
  end.

Section Commands.

(** [json.loads] applied to what [read()] returns; [None] when the text is
    not a JSON document.  The parser is the library's, and a parameter
    here. *)
Variable json_loads : bytes -> option pyval.

(** [_load_and_validate_models] (lines 51-62): the raw definitions are
    returned, not the validated object; a document that is no JSON object
    cannot be unpacked into keyword arguments. *)
Definition _load_and_validate_models (models_file_path : string) : M pyval :=
  text <- open_rb models_file_path ;;
  match json_loads text with
  | None => raise JSONDecodeError
  | Some model_definitions =>
      match model_definitions with
      | PyDict kwargs =>
          match ModelsConfig_fields kwargs with
          | inr _ => logger_info "Models validated." ;; ret model_definitions
          | inl errors =>
              logger_error "Config failed serialization." ;;
              raise (ValidationError errors)
          end
      | _ => raise TypeError
      end
  end.

(** The entries the command loops over: [models_definition.get("ggufs", [])]. *)
Definition get_ggufs (models_definition : pyval) : M (list pyval) :=
  match models_definition with
  | PyDict d =>
      match default (PyList []) (dict_get "ggufs" d) with
      | PyList l => ret l
      | _ => raise TypeError  (* a validated manifest holds a list there *)
      end
  | _ => raise TypeError
  end.

(** [GGUFModelsConfig] built from the keyword arguments of a raw entry. *)
Definition parse_gguf (entry : pyval) : M GGUFModelsConfig :=
  match entry with
  | PyDict kwargs =>
      match GGUFModelsConfig_fields kwargs with
      | inr parsed_model => ret parsed_model
      | inl errors => raise (ValidationError errors)
      end
  | _ => raise TypeError
  end.

(** The [download-models] command (lines 181-190); [models_dir] and
    [overwrite] are its options [--models-dir] and [--overwrite]. *)
Definition download_models (models_file models_dir : string) (overwrite : bool) : M unit :=
  here <- os_getcwd ;;
  let models_file_path := os_path_join here models_file in
  models_definition <- _load_and_validate_models models_file_path ;;
  entries <- get_ggufs models_definition ;;
  for_each entries (fun entry =>
    parsed_model <- parse_gguf entry ;;
    download_model_files (OfGGUF parsed_model)).

End Commands.

(** ** Observations on runs *)

(** The events a run from [w] to [w'] added. *)
Definition events_since (w w' : world) : list event :=
  drop (length (trace w)) (trace w').

(** Whether something is at [p]. *)
Definition exists_at (w : world) (p : PurePath.t) : Prop :=
  is_Some (node_at (fs w) (locate w p)).

(** The error a fetch of [url] into [destination] ends in, if any: what
    the [try] body raises when the destination is not there yet. *)
Definition fetch_error (url : string) (destination : PurePath.t) (w : world) : option exn :=
  if bool_decide (exists_at w destination) then None
  else match (transfer url destination w).1 with
       | Raise e => Some e
       | Ok _ => None
       end.

(** What does not change under any command. *)
Definition frame (w w' : world) : Prop :=
  cwd w' = cwd w ∧ environ w' = environ w ∧ net w' = net w.

(** A run that emits only events in [P] and changes the file system only
    at the paths in [K]. *)
Record confined (P : event -> Prop) (K : list string -> Prop) (w w' : world) : Prop := {
  confined_frame : frame w w';
  confined_trace : ∃ evs, trace w' = trace w ++ evs ∧ Forall P evs;
  confined_fs : ∀ k, ¬ K k -> fs w' !! k = fs w !! k
}.

(** The same for the runs that start in the working directory [c]. *)
Definition within (c : string) (P : event -> Prop) (K : list string -> Prop)
  : relation world :=
  fun w w' => cwd w = c -> confined P K w w'.

(** A run that only adds to the file system and to the trace. *)
Record preserves (w w' : world) : Prop := {
  preserves_frame : frame w w';
  preserves_trace : ∃ evs, trace w' = trace w ++ evs;
  preserves_fs : ∀ k n, fs w !! k = Some n -> fs w' !! k = Some n
}.

(** Every run of [m] is a step of [T]. *)
Definition steps {A} (T : relation world) (m : M A) : Prop :=
  ∀ w, T w (m w).2.

(** A run that removes nothing and stays in its working directory. *)
Definition grows : relation world :=
  fun w w' => cwd w' = cwd w ∧ ∀ k, is_Some (fs w !! k) -> is_Some (fs w' !! k).

(** A command that, when it returns, leaves something at [p]. *)
Definition lands {A} (p : PurePath.t) (m : M A) : Prop :=
  ∀ w a, (m w).1 = Ok a -> exists_at (m w).2 p.

(** ** Policies: what a run may emit, touch and raise *)

(** The events of a transfer into the file at [d]. *)
Definition transfer_event (d : list string) (e : event) : Prop :=
  match e with
  | EvOpenWrite k | EvWrite k _ => k = d
  | EvOpenRead _ | EvGet _ | EvProgress _ => True
  | EvMkdir _ | EvLog _ | EvPrint _ => False
  end.

(** The events of a fetch into the file at [d]: those of the transfer,
    and what is logged or printed. *)
Definition fetch_event (d : list string) (e : event) : Prop :=
  match e with
  | EvOpenWrite k | EvWrite k _ => k = d
  | EvMkdir _ => False
  | _ => True
  end.

(** The events of [mkdir] on the way to [target]. *)
Definition mkdir_event (target : list string) (e : event) : Prop :=
  match e with
  | EvMkdir k => k `prefix_of` target
  | _ => False
  end.

Definition raises_only {A} (P : exn -> Prop) (m : M A) : Prop :=
  ∀ w e, (m w).1 = Raise e -> P e.

(** The exceptions of the operating system and of the HTTP client. *)
Definition is_OSError (e : exn) : Prop :=
  e = FileNotFoundError ∨ e = IsADirectoryError ∨ e = NotADirectoryError
  ∨ e = FileExistsError.

Definition transfer_exn (e : exn) : Prop :=
  is_OSError e ∨ e = ValueError ∨ is_RequestException e = true.

(** A fetch lets the transfer's exceptions through, but for those of the
    HTTP client. *)
Definition fetch_exn (e : exn) : Prop :=
  (is_OSError e ∨ e = ValueError) ∧ is_RequestException e = false.

(** The chunks put together again. *)
Definition join_chunks (l : list bytes) : bytes := foldr String.append "" l.

(** A loop body that appends its chunk to the file at [destination]. *)
Definition appends (destination : PurePath.t) (body : bytes -> M unit) : Prop :=
  ∀ chunk w old,
    fs w !! locate w destination = Some (File old) ->
    (body chunk w).1 = Ok tt
    ∧ cwd (body chunk w).2 = cwd w
    ∧ fs (body chunk w).2 !! locate w destination = Some (File (old +:+ chunk)).

(** ** The path resolver of the specification *)

(** The models root: [MODELS_DIR] (or ["models"]) under the working
    directory. *)
Definition models_root (w : world) : PurePath.t :=
  Path (cwd w) </> Path (default "models" (environ w !! "MODELS_DIR")).






(** *** The paths of the dispatcher *)

Definition entry_directory (modelsRoot : PurePath.t) (g : GGUFModelsConfig) : PurePath.t :=
  modelsRoot </> Path (ModelType_value (gguf_model_type g)) </> Path (name g).

Definition primary_destination (modelsRoot : PurePath.t) (g : GGUFModelsConfig)
  : PurePath.t :=
  entry_directory modelsRoot g </> Path (name g +:+ ".gguf").

Definition projector_destination (modelsRoot : PurePath.t) (g : GGUFModelsConfig)
  : PurePath.t :=
  entry_directory modelsRoot g </> Path ("mmproj_" +:+ name g +:+ ".gguf").






(** The run of a quantized entry (lines 166-172), the models root being
    given. *)
Definition fetch_entry (modelsRoot : PurePath.t) (g : GGUFModelsConfig) : M unit :=
  mkdir_parents_exist_ok (entry_directory modelsRoot g) ;;
  _download_file (url g) (primary_destination modelsRoot g) ;;
  match mmproj g with
  | Some (String _ _ as projector) =>
      _download_file projector (projector_destination modelsRoot g)
  | _ => ret tt
  end.

Fixpoint no_slash (s : string) : bool :=
  match s with
  | EmptyString => true
  | String c r => negb (Ascii.eqb c "/") && no_slash r
  end.

(** A name that [Path] reads as one component: no slash, and neither
    empty nor a dot. *)
Definition plain (s : string) : bool :=
  no_slash s && negb (String.eqb s "") && negb (String.eqb s ".").


(** ** The constraints of the manifest, field by field

    The declarative reading of the schema: which fields an entry of each
    collection has, and when a raw manifest violates one of them.  The
    validator above is compared with it. *)

(** The report of [r] names the error [t] at [loc]. *)
Definition reports {A} (r : vresult A) (loc : list loc_item) (t : error_type) : Prop :=
  In {| err_loc := loc; err_type := t |} (errors_of r).

(** A failed validation names at least one error. *)
Definition proper {A} (r : vresult A) : Prop :=
  match r with
  | inl es => es ≠ []
  | inr _ => True
  end.

Inductive field_type := T_str | T_optional_str | T_ModelType | T_dict_str_str.

Record field := {
  field_name : string;
  field_type_of : field_type;
  field_required : bool
}.

Definition base_fields : list field :=
  [ {| field_name := "name"; field_type_of := T_str; field_required := true |};
    {| field_name := "description"; field_type_of := T_str; field_required := true |};
    {| field_name := "runtime_kwargs"; field_type_of := T_dict_str_str;
       field_required := false |} ].

Definition gguf_fields : list field :=
  base_fields ++
  [ {| field_name := "model_type"; field_type_of := T_ModelType; field_required := false |};
    {| field_name := "url"; field_type_of := T_str; field_required := true |};
    {| field_name := "mmproj"; field_type_of := T_optional_str; field_required := false |} ].

Definition safetensors_fields : list field :=
  base_fields ++
  [ {| field_name := "model_type"; field_type_of := T_ModelType; field_required := false |} ].

(** The two collections of a manifest and the fields of their entries. *)
Definition collections : list (string * list field) :=
  [ ("ggufs", gguf_fields); ("safetensors", safetensors_fields) ].

(** A value of the wrong type, or not of the enumeration. *)
Inductive value_violation : field_type -> pyval -> list loc_item -> error_type -> Prop :=
| wrong_str v :
    (∀ s, v ≠ PyStr s) -> value_violation T_str v [] E_string_type
| wrong_optional_str v :
    v ≠ PyNone -> (∀ s, v ≠ PyStr s) -> value_violation T_optional_str v [] E_string_type
| wrong_enum v :
    v ≠ PyStr "gguf" -> v ≠ PyStr "safetensors" -> value_violation T_ModelType v [] E_enum
| wrong_dict v :
    (∀ d, v ≠ PyDict d) -> value_violation T_dict_str_str v [] E_dict_type
| wrong_dict_value d k x :
    In (k, x) d -> (∀ s, x ≠ PyStr s) ->
    value_violation T_dict_str_str (PyDict d) [LKey k] E_string_type.

(** What is wrong with an entry: it is no mapping, a required field is
    missing, or the value of a field is wrong. *)
Inductive entry_violation (fields : list field)
  : pyval -> list loc_item -> error_type -> Prop :=
| entry_not_mapping v :
    (∀ d, v ≠ PyDict d) -> entry_violation fields v [] E_model_type
| entry_field_missing d f :
    In f fields -> field_required f = true -> dict_get (field_name f) d = None ->
    entry_violation fields (PyDict d) [LKey (field_name f)] E_missing
| entry_field_wrong d f v loc t :
    In f fields -> dict_get (field_name f) d = Some v ->
    value_violation (field_type_of f) v loc t ->
    entry_violation fields (PyDict d) (LKey (field_name f) :: loc) t.

(** What is wrong with a manifest: a collection is missing or no list, or
    something is wrong with one of its entries. *)
Inductive manifest_violation (d : list (string * pyval))
  : list loc_item -> error_type -> Prop :=
| collection_missing key fields :
    In (key, fields) collections -> dict_get key d = None ->
    manifest_violation d [LKey key] E_missing
| collection_not_list key fields v :
    In (key, fields) collections -> dict_get key d = Some v -> (∀ l, v ≠ PyList l) ->
    manifest_violation d [LKey key] E_list_type
| collection_entry key fields l i e loc t :
    In (key, fields) collections -> dict_get key d = Some (PyList l) ->
    l !! i = Some e -> entry_violation fields e loc t ->
    manifest_violation d (LKey key :: LIdx i :: loc) t.

(** What is wrong with the field [f] of the mapping [d]. *)
Definition field_violation (f : field) (d : list (string * pyval))
    (loc : list loc_item) (t : error_type) : Prop :=
  (field_required f = true ∧ dict_get (field_name f) d = None
   ∧ loc = [LKey (field_name f)] ∧ t = E_missing)
  ∨ (∃ v loc', dict_get (field_name f) d = Some v ∧ loc = LKey (field_name f) :: loc'
               ∧ value_violation (field_type_of f) v loc' t).

(** The entries of a collection of a raw manifest, and the names all the
    entries declare. *)
Definition collection_entries (key : string) (d : list (string * pyval)) : list pyval :=
  match dict_get key d with
  | Some (PyList l) => l
  | _ => []
  end.

Definition entry_name (e : pyval) : option string :=
  match e with
  | PyDict f => match dict_get "name" f with Some (PyStr s) => Some s | _ => None end
  | _ => None
  end.

Definition declared_names (d : list (string * pyval)) : list string :=
  omap entry_name (collection_entries "ggufs" d ++ collection_entries "safetensors" d).

(** Two entries of the manifest, of whichever family, share a name. *)
Definition duplicate_name (d : list (string * pyval)) : Prop :=
  ¬ NoDup (declared_names d).

(** Validation fails. *)
Definition rejected (d : list (string * pyval)) : Prop :=
  ∃ report, ModelsConfig_fields d = inl report.

(** The tensor-weights entries a raw manifest declares. *)
Definition declared_safetensors (v : pyval) : list pyval :=
  match v with
  | PyDict d => match dict_get "safetensors" d with Some (PyList l) => l | _ => [] end
  | _ => []
  end.

(** ** What the specification says of a run *)

(** Two fetches in a row, the second doing no transfer and leaving the
    file system as the first left it. *)
Definition second_fetch_is_idle (u : string) (destination : PurePath.t) (w : world) : Prop :=
  let w1 := (_download_file u destination w).2 in
  let w2 := (_download_file u destination w1).2 in
  List.filter is_transfer (events_since w1 w2) = [] ∧ fs w2 = fs w1.

(** A fetch that ended in an error tells its caller: it does not come back
    the way a successful fetch does. *)
Definition failure_reaches_caller (u : string) (destination : PurePath.t) (w : world)
  : Prop :=
  ∀ e, fetch_error u destination w = Some e ->
       (_download_file u destination w).1 ≠ Ok tt.

(** The errors by which the system tells that nothing is at a path:
    [ENOENT], and [ENOTDIR] when the path goes through a regular file. *)
Definition SourceNotFound (e : exn) : Prop :=
  e = FileNotFoundError ∨ e = NotADirectoryError.

(** The fetch raises such an error and changes no file. *)
Definition missing_source_reported (u : string) (destination : PurePath.t) (w : world)
  : Prop :=
  (∃ e, (_download_file u destination w).1 = Raise e ∧ SourceNotFound e)
  ∧ fs (_download_file u destination w).2 = fs w.

(** The local path a [file://] locator names does not exist:
    [os.path.exists] says no. *)
Definition source_missing (u : string) (w : world) : Prop :=
  (os_path_exists (str_remove "file://" u) w).1 = Ok false.

(** Once the primary fetch has ended in an error, the run of the entry is
    over: nothing happens after it. *)
Definition projector_skipped_after_failure (g : GGUFModelsConfig) (w : world) : Prop :=
  ∀ w0 e,
    mkdir_parents_exist_ok (entry_directory (models_root w) g) w = (Ok tt, w0) ->
    fetch_error (url g) (primary_destination (models_root w) g) w0 = Some e ->
    (download_model_files (OfGGUF g) w).2
    = (_download_file (url g) (primary_destination (models_root w) g) w0).2.

(** ** Fixtures *)

Definition fixture_fs : gmap (list string) node :=
  {[ ["srv"] := Dir;
     ["srv"; "fixtures"] := Dir;
     ["srv"; "fixtures"; "tiny.gguf"] := File "GGUF-tiny-weights";
     ["srv"; "fixtures"; "proj.gguf"] := File "GGUF-projector" ]}.

(** A host that cannot be reached, and nothing in the environment. *)
Definition offline_world : world :=
  {| environ := ∅; cwd := "/srv"; fs := fixture_fs;
     net := fun _ => Unreachable; trace := [] |}.

(** An entry with a remote primary artifact and a local projector. *)
Definition remote_with_projector : GGUFModelsConfig :=
  {| gguf_base := {| name := "tiny"; description := "a tiny model"; runtime_kwargs := [] |};
     gguf_model_type := GGUF;
     url := "https://models.example/tiny.gguf";
     mmproj := Some "file:///srv/fixtures/proj.gguf" |}.

(** An entry with local sources for both artifacts. *)
Definition local_with_projector : GGUFModelsConfig :=
  {| gguf_base := {| name := "tiny"; description := "a tiny model"; runtime_kwargs := [] |};
     gguf_model_type := GGUF;
     url := "file:///srv/fixtures/tiny.gguf";
     mmproj := Some "file:///srv/fixtures/proj.gguf" |}.

Definition tensor_entry : SafetensorsModelsConfig :=
  {| safetensors_base := {| name := "big"; description := "a big model";
                            runtime_kwargs := [] |};
     safetensors_model_type := SAFETENSORS |}.

Definition dq : string := String "034"%char "".
Definition quoted (s : string) : string := dq +:+ s +:+ dq.

(** A manifest with one quantized entry, served by a local fixture, and
    one tensor-weights entry. *)
Definition manifest_text : bytes :=
  "{" +:+ quoted "ggufs" +:+ ": [{"
    +:+ quoted "name" +:+ ": " +:+ quoted "tiny" +:+ ", "
    +:+ quoted "description" +:+ ": " +:+ quoted "a tiny model" +:+ ", "
    +:+ quoted "url" +:+ ": " +:+ quoted "file:///srv/fixtures/tiny.gguf" +:+ "}], "
  +:+ quoted "safetensors" +:+ ": [{"
    +:+ quoted "name" +:+ ": " +:+ quoted "big" +:+ ", "
    +:+ quoted "description" +:+ ": " +:+ quoted "a big model" +:+ "}]}".

Definition manifest_value : pyval :=
  PyDict [
    ("ggufs", PyList [PyDict [("name", PyStr "tiny");
                              ("description", PyStr "a tiny model");
                              ("url", PyStr "file:///srv/fixtures/tiny.gguf")]]);
    ("safetensors", PyList [PyDict [("name", PyStr "big");
                                    ("description", PyStr "a big model")]])
  ].

(** A manifest whose quantized entry lacks its description, and whose
    tensor-weights entry has the same name. *)
Definition flawed_text : bytes :=
  "{" +:+ quoted "ggufs" +:+ ": [{"
    +:+ quoted "name" +:+ ": " +:+ quoted "tiny" +:+ ", "
    +:+ quoted "url" +:+ ": " +:+ quoted "file:///srv/fixtures/tiny.gguf" +:+ "}], "
  +:+ quoted "safetensors" +:+ ": [{"
    +:+ quoted "name" +:+ ": " +:+ quoted "tiny" +:+ ", "
    +:+ quoted "description" +:+ ": " +:+ quoted "a namesake" +:+ "}]}".

Definition flawed_manifest : list (string * pyval) :=
  [ ("ggufs", PyList [PyDict [("name", PyStr "tiny");
                              ("url", PyStr "file:///srv/fixtures/tiny.gguf")]]);
    ("safetensors", PyList [PyDict [("name", PyStr "tiny");
                                    ("description", PyStr "a namesake")]]) ].

(** A manifest with three well-formed entries of one name: two quantized
    ones and a tensor-weights one. *)
Definition namesakes_text : bytes :=
  "{" +:+ quoted "ggufs" +:+ ": [{"
    +:+ quoted "name" +:+ ": " +:+ quoted "tiny" +:+ ", "
    +:+ quoted "description" +:+ ": " +:+ quoted "first" +:+ ", "
    +:+ quoted "url" +:+ ": " +:+ quoted "file:///srv/fixtures/tiny.gguf" +:+ "}, {"
    +:+ quoted "name" +:+ ": " +:+ quoted "tiny" +:+ ", "
    +:+ quoted "description" +:+ ": " +:+ quoted "second" +:+ ", "
    +:+ quoted "url" +:+ ": " +:+ quoted "https://models.example/tiny.gguf" +:+ "}], "
  +:+ quoted "safetensors" +:+ ": [{"
    +:+ quoted "name" +:+ ": " +:+ quoted "tiny" +:+ ", "
    +:+ quoted "description" +:+ ": " +:+ quoted "third" +:+ "}]}".

Definition namesakes_manifest : list (string * pyval) :=
  [ ("ggufs", PyList [PyDict [("name", PyStr "tiny");
                              ("description", PyStr "first");
                              ("url", PyStr "file:///srv/fixtures/tiny.gguf")];
                      PyDict [("name", PyStr "tiny");
                              ("description", PyStr "second");
                              ("url", PyStr "https://models.example/tiny.gguf")]]);
    ("safetensors", PyList [PyDict [("name", PyStr "tiny");
                                    ("description", PyStr "third")]]) ].

(** The parser on the fixtures: the table of what [json.loads] makes of
    each text. *)
Definition loads_fixture (text : bytes) : option pyval :=
  snd <$> List.find (fun entry => String.eqb (fst entry) text)
            [ (manifest_text, manifest_value);
              (flawed_text, PyDict flawed_manifest);
              (namesakes_text, PyDict namesakes_manifest) ].

Definition manifest_world : world :=
  {| environ := ∅; cwd := "/srv";
     fs := <[ ["srv"; "models.json"] := File manifest_text ]>
             (<[ ["srv"; "flawed.json"] := File flawed_text ]>
                (<[ ["srv"; "namesakes.json"] := File namesakes_text ]> fixture_fs));
     net := fun _ => Unreachable; trace := [] |}.

(** The manifest fixture, with a stale file where the artifact goes. *)
Definition stale_world : world :=
  {| environ := ∅; cwd := "/srv";
     fs := <[ ["srv"; "models"; "gguf"; "tiny"; "tiny.gguf"] := File "stale" ]>
             (<[ ["srv"; "models"; "gguf"; "tiny"] := Dir ]>
                (<[ ["srv"; "models"; "gguf"] := Dir ]>
                   (<[ ["srv"; "models"] := Dir ]> (fs manifest_world))));
     net := fun _ => Unreachable; trace := [] |}.

Definition tiny_first : GGUFModelsConfig :=
  {| gguf_base := {| name := "tiny"; description := "first"; runtime_kwargs := [] |};
     gguf_model_type := GGUF;
     url := "file:///srv/fixtures/tiny.gguf";
     mmproj := None |}.

Definition tiny_second : GGUFModelsConfig :=
  {| gguf_base := {| name := "tiny"; description := "second"; runtime_kwargs := [] |};
     gguf_model_type := GGUF;
     url := "https://models.example/tiny.gguf";
     mmproj := None |}.

Definition tiny_third : SafetensorsModelsConfig :=
  {| safetensors_base := {| name := "tiny"; description := "third"; runtime_kwargs := [] |};
     safetensors_model_type := SAFETENSORS |}.

(** A server that answers every request with [503 Service Unavailable]. *)
Definition unavailable_world : world :=
  {| environ := ∅; cwd := "/srv"; fs := fixture_fs;
     net := fun _ => Serves {| status_code := 503; headers_content_length := CL_absent;
                               iter_content := []; stream_breaks := false |};
     trace := [] |}.

(** A server that sends two chunks and drops the connection. *)
Definition flaky_world : world :=
  {| environ := ∅; cwd := "/srv"; fs := fixture_fs;
     net := fun _ => Serves {| status_code := 200; headers_content_length := CL_int 24;
                               iter_content := ["GGUF-"; "tiny"]; stream_breaks := true |};
     trace := [] |}.

(** A server whose content length is no number. *)
Definition garbled_world : world :=
  {| environ := ∅; cwd := "/srv"; fs := fixture_fs;
     net := fun _ => Serves {| status_code := 200; headers_content_length := CL_malformed;
                               iter_content := ["GGUF-tiny-weights"];
                               stream_breaks := false |};
     trace := [] |}.

(** [pat in s]: [pat] occurs somewhere in [s]. *)
Fixpoint contains (pat s : string) : bool :=
  String.prefix pat s
  || match s with
     | EmptyString => false
     | String _ r => contains pat r
     end.

(** The offline fixture after the entry with two local sources was
    downloaded once. *)
Definition settled_world : world :=
  (download_model_files (OfGGUF local_with_projector) offline_world).2.

(** An entry whose name starts at the root. *)
Definition rooted_entry : GGUFModelsConfig :=
  {| gguf_base := {| name := "/srv/elsewhere"; description := "out of place";
                     runtime_kwargs := [] |};
     gguf_model_type := GGUF;
     url := "file:///srv/fixtures/tiny.gguf";
     mmproj := None |}.

(** A parser given by the table of what [json.loads] makes of each text. *)
Definition loads_table (table : list (bytes * pyval)) (text : bytes) : option pyval :=
  snd <$> List.find (fun entry => String.eqb (fst entry) text) table.

(** A manifest of two quantized entries: the local source of the first is
    missing, that of the second is there. *)
Definition broken_first_text : bytes :=
  "{" +:+ quoted "ggufs" +:+ ": [{"
    +:+ quoted "name" +:+ ": " +:+ quoted "ghost" +:+ ", "
    +:+ quoted "description" +:+ ": " +:+ quoted "no such file" +:+ ", "
    +:+ quoted "url" +:+ ": " +:+ quoted "file:///srv/fixtures/absent.gguf" +:+ "}, {"
    +:+ quoted "name" +:+ ": " +:+ quoted "tiny" +:+ ", "
    +:+ quoted "description" +:+ ": " +:+ quoted "a tiny model" +:+ ", "
    +:+ quoted "url" +:+ ": " +:+ quoted "file:///srv/fixtures/tiny.gguf" +:+ "}], "
  +:+ quoted "safetensors" +:+ ": []}".

Definition broken_first_manifest : list (string * pyval) :=
  [ ("ggufs", PyList [PyDict [("name", PyStr "ghost");
                              ("description", PyStr "no such file");
                              ("url", PyStr "file:///srv/fixtures/absent.gguf")];
                      PyDict [("name", PyStr "tiny");
                              ("description", PyStr "a tiny model");
                              ("url", PyStr "file:///srv/fixtures/tiny.gguf")]]);
    ("safetensors", PyList []) ].

Definition ghost_entry : GGUFModelsConfig :=
  {| gguf_base := {| name := "ghost"; description := "no such file";
                     runtime_kwargs := [] |};
     gguf_model_type := GGUF;
     url := "file:///srv/fixtures/absent.gguf";
     mmproj := None |}.

Definition tiny_entry : GGUFModelsConfig :=
  {| gguf_base := {| name := "tiny"; description := "a tiny model"; runtime_kwargs := [] |};
     gguf_model_type := GGUF;
     url := "file:///srv/fixtures/tiny.gguf";
     mmproj := None |}.

Definition broken_first_world : world :=
  {| environ := ∅; cwd := "/srv";
     fs := <[ ["srv"; "models.json"] := File broken_first_text ]> fixture_fs;
     net := fun _ => Unreachable; trace := [] |}.

(** The manifest fixture in a world whose environment names the models
    directory. *)
Definition store_world : world :=
  {| environ := {[ "MODELS_DIR" := "store" ]}; cwd := "/srv";
     fs := fs manifest_world; net := fun _ => Unreachable; trace := [] |}.

(** * Properties *)

(** ** Stepwise reasoning *)

Section Steps.
Context (T : relation world) `{!PreOrder T}.

Lemma steps_ret {A} (a : A) : steps T (ret a).
Proof. intros w. simpl. reflexivity. Qed.

Lemma steps_raise {A} (e : exn) : steps T (@raise A e).
Proof. intros w. simpl. reflexivity. Qed.

Lemma steps_bind {A B} (m : M A) (k : A -> M B) :
  steps T m -> (∀ a, steps T (k a)) -> steps T (bind m k).
Proof.
  intros Hm Hk w. unfold bind. specialize (Hm w).
  destruct (m w) as [[a|e] w1]; simpl in *; [|done].
  etrans; [exact Hm|apply Hk].
Qed.

Lemma steps_try_except {A} (m : M A) (h : exn -> M A) :
  steps T m -> (∀ e, steps T (h e)) -> steps T (try_except m h).
Proof.
  intros Hm Hh w. unfold try_except. specialize (Hm w).
  destruct (m w) as [[a|e] w1]; simpl in *; [done|].
  etrans; [exact Hm|apply Hh].
Qed.

Lemma steps_for_each {A} (l : list A) (body : A -> M unit) :
  (∀ x, steps T (body x)) -> steps T (for_each l body).
Proof.
  intros Hb. induction l as [|x l IH]; simpl.
  - apply steps_ret.
  - apply steps_bind; auto.
Qed.

End Steps.

Lemma frame_refl w : frame w w.
Proof. done. Qed.

Lemma frame_trans w1 w2 w3 : frame w1 w2 -> frame w2 w3 -> frame w1 w3.
Proof. unfold frame. intros (?&?&?) (?&?&?). repeat split; congruence. Qed.

#[local] Instance within_preorder c P K : PreOrder (within c P K).
Proof.
  split.
  - intros w _. split; [apply frame_refl| |done].
    exists []. by rewrite app_nil_r.
  - intros w1 w2 w3 H12 H23 Hc.
    destruct (H12 Hc) as [F12 (e12 & Ht12 & HP12) Hf12].
    assert (cwd w2 = c) as Hc2 by (destruct F12; congruence).
    destruct (H23 Hc2) as [F23 (e23 & Ht23 & HP23) Hf23].
    split; [by eapply frame_trans| |].
    + exists (e12 ++ e23). rewrite Ht23, Ht12, app_assoc. split; [done|].
      by apply Forall_app.
    + intros k Hk. rewrite Hf23, Hf12; auto.
Qed.

#[local] Instance preserves_preorder : PreOrder preserves.
Proof.
  split.
  - intros w. split; [apply frame_refl| |done]. exists []. by rewrite app_nil_r.
  - intros w1 w2 w3 [F12 (e12 & Ht12) Hf12] [F23 (e23 & Ht23) Hf23].
    split; [by eapply frame_trans| |auto].
    exists (e12 ++ e23). by rewrite Ht23, Ht12, app_assoc.
Qed.

Lemma within_mono c (P Q : event -> Prop) (K L : list string -> Prop) w w' :
  (∀ e, P e -> Q e) -> (∀ k, K k -> L k) -> within c P K w w' -> within c Q L w w'.
Proof.
  intros HPQ HKL H Hc. destruct (H Hc) as [F (evs & Ht & HP) Hf].
  split; [done| |].
  - exists evs. split; [done|]. eapply Forall_impl; eauto.
  - intros k Hk. apply Hf. naive_solver.
Qed.

(** ** The primitives *)

(** Where [p] leads for a run started in the working directory [c]. *)
Lemma locate_cwd w p : locate w p = PurePath.parts (Path (cwd w) </> p).
Proof. reflexivity. Qed.

Lemma confined_same P K w : confined P K w w.
Proof. split; [done| |done]. exists []. by rewrite app_nil_r. Qed.

Lemma confined_event (P : event -> Prop) K w e : P e -> confined P K w (add_event w e).
Proof. intros He. split; [done| |done]. exists [e]. split; [done|]. by constructor. Qed.

Lemma steps_emit c (P : event -> Prop) K e : P e -> steps (within c P K) (emit e).
Proof. intros He w _. by apply confined_event. Qed.

Section Transfer.
Context (c : string) (destination : PurePath.t).
Let d := PurePath.parts (Path c </> destination).
Let T := within c (transfer_event d) (eq d).

Lemma steps_os_path_exists s : steps T (os_path_exists s).
Proof. intros w _. apply confined_same. Qed.

Lemma steps_os_path_getsize s : steps T (os_path_getsize s).
Proof.
  intros w _. unfold os_path_getsize.
  destruct (locate_str w s) as [k|]; [|apply confined_same].
  destruct (node_at (fs w) k) as [[?|]|]; [destruct (needs_directory s)|..];
    apply confined_same.
Qed.

Lemma steps_open_rb s : steps T (open_rb s).
Proof.
  intros w _. unfold open_rb. destruct (locate_str w s) as [k|]; [|apply confined_same].
  destruct (node_at (fs w) k) as [[?|]|]; [destruct (needs_directory s)|..];
    by apply confined_event.
Qed.

Lemma steps_open_wb : steps T (open_wb destination).
Proof.
  intros w Hc. unfold open_wb. rewrite locate_cwd, Hc. fold d.
  assert (confined (transfer_event d) (eq d) w (add_event w (EvOpenWrite d))) as H0
    by by apply confined_event.
  assert (confined (transfer_event d) (eq d) w
            (set_fs (add_event w (EvOpenWrite d)) (<[d:=File ""]> (fs w)))) as H1.
  { split; [done| |].
    - exists [EvOpenWrite d]. split; [done|]. by constructor.
    - intros k Hk. simpl. by rewrite lookup_insert_ne. }
  destruct (node_at (fs w) d) as [[?|]|]; simpl; [done..|].
  destruct (node_at (fs w) (removelast d)) as [[?|]|]; done.
Qed.

Lemma steps_write chunk : steps T (write destination chunk).
Proof.
  intros w Hc. unfold write. rewrite locate_cwd, Hc. fold d. simpl.
  split; [done| |].
  - eexists [_]. split; [done|]. by constructor.
  - intros k Hk. simpl. by rewrite lookup_insert_ne.
Qed.

Lemma steps_pbar_update n : steps T (pbar_update n).
Proof. by apply steps_emit. Qed.

Lemma steps_requests_get u : steps T (requests_get u).
Proof.
  intros w _. unfold requests_get. destruct (net w u); by apply confined_event.
Qed.

Lemma steps_shutil_copyfileobj src : steps T (shutil_copyfileobj src destination).
Proof. apply steps_for_each; [apply _|]. intros x. apply steps_write. Qed.

Lemma steps_for_iter_content r body :
  (∀ x, steps T (body x)) -> steps T (for_iter_content r body).
Proof.
  intros Hb. apply steps_bind; [apply _| |].
  - by apply steps_for_each; [apply _|].
  - intros _. destruct (stream_breaks r); [apply steps_raise|apply steps_ret]; apply _.
Qed.

Lemma steps_download_local u : steps T (download_local u destination).
Proof.
  unfold download_local.
  apply steps_bind; [apply _|apply steps_os_path_exists|]. intros found.
  apply steps_bind; [apply _| |].
  { destruct found; [|apply steps_ret; apply _].
    apply steps_bind; [apply _|apply steps_os_path_getsize|].
    intros. apply steps_ret; apply _. }
  intros total. apply steps_bind; [apply _|apply steps_open_rb|]. intros src.
  apply steps_bind; [apply _|apply steps_open_wb|]. intros _.
  destruct total as [[|n]|]; try apply steps_shutil_copyfileobj.
  apply steps_for_each; [apply _|]. intros chunk.
  apply steps_bind; [apply _|apply steps_write|]. intros _. apply steps_pbar_update.
Qed.

Lemma steps_download_remote u : steps T (download_remote u destination).
Proof.
  unfold download_remote.
  apply steps_bind; [apply _|apply steps_requests_get|]. intros r.
  apply steps_bind; [apply _| |].
  { unfold raise_for_status. case_match; [apply steps_raise|apply steps_ret]; apply _. }
  intros _. apply steps_bind; [apply _| |].
  { unfold int_content_length. case_match;
      [apply steps_ret|apply steps_ret|apply steps_raise]; apply _. }
  intros total. apply steps_bind; [apply _|apply steps_open_wb|]. intros _.
  case_match; apply steps_for_iter_content; intros [|a s];
    try (apply steps_ret; apply _); [|apply steps_write].
  apply steps_bind; [apply _|apply steps_write|]. intros _. apply steps_pbar_update.
Qed.

Lemma steps_transfer u : steps T (transfer u destination).
Proof.
  unfold transfer. case_match; [apply steps_download_local|apply steps_download_remote].
Qed.

End Transfer.

(** ** The fetcher *)

Lemma transfer_fetch_event d e : transfer_event d e -> fetch_event d e.
Proof. by destruct e. Qed.

Lemma download_file_present u destination w :
  exists_at w destination ->
  _download_file u destination w
  = (Ok tt, add_event w (EvLog "File already exists, skipping download.")).
Proof.
  intros H. unfold _download_file, bind, path_exists.
  fold (exists_at w destination). by rewrite bool_decide_eq_true_2.
Qed.

Lemma download_file_absent u destination w :
  ¬ exists_at w destination ->
  _download_file u destination w
  = try_except (transfer u destination)
      (fun e => if is_RequestException e
                then print "Error downloading the file:" else raise e) w.
Proof.
  intros H. unfold _download_file, bind, path_exists.
  fold (exists_at w destination). by rewrite bool_decide_eq_false_2.
Qed.

Lemma steps_handler (T : relation world) `{!PreOrder T} e :
  steps T (emit (EvPrint "Error downloading the file:")) ->
  steps T (if is_RequestException e
           then print "Error downloading the file:" else raise e).
Proof. intros H. destruct (is_RequestException e); [done|by apply steps_raise]. Qed.

Lemma steps_download_file c u destination :
  let d := PurePath.parts (Path c </> destination) in
  steps (within c (fetch_event d) (eq d)) (_download_file u destination).
Proof.
  intros d w Hc. destruct (decide (exists_at w destination)) as [H|H].
  - rewrite download_file_present by done. by apply confined_event.
  - rewrite download_file_absent by done.
    refine (steps_try_except (within c (fetch_event d) (eq d)) _ _ _ _ w Hc).
    + intros w'. eapply within_mono; [apply transfer_fetch_event|done|].
      apply steps_transfer.
    + intros e. apply steps_handler; [apply _|]. by apply steps_emit.
Qed.

Lemma node_at_None fsys k : node_at fsys k = None -> fsys !! k = None.
Proof. by destruct k. Qed.

Lemma steps_preserves_download_file u destination :
  steps preserves (_download_file u destination).
Proof.
  intros w. destruct (decide (exists_at w destination)) as [H|H].
  - rewrite download_file_present by done.
    split; [done| |done]. by eexists [_].
  - destruct (steps_download_file (cwd w) u destination w eq_refl)
      as [F (evs & Ht & _) Hf].
    split; [done|by exists evs|].
    intros k n Hk. rewrite Hf; [done|]. intros <-.
    apply H. unfold exists_at. rewrite locate_cwd.
    destruct (PurePath.parts _); [by eexists|]. simpl. by rewrite Hk.
Qed.

Lemma steps_preserves_mkdir_from pre rest : steps preserves (mkdir_from pre rest).
Proof.
  revert pre. induction rest as [|x rest IH]; intros pre w; simpl.
  - reflexivity.
  - destruct (node_at (fs w) (pre ++ [x])) as [[?|]|] eqn:E.
    + reflexivity.
    + apply IH.
    + etrans; [|apply IH].
      split; [done|by eexists [_]|].
      intros k n Hk. simpl. rewrite lookup_insert_ne; [done|].
      intros <-. apply node_at_None in E. congruence.
Qed.

Lemma steps_preserves_mkdir p : steps preserves (mkdir_parents_exist_ok p).
Proof. intros w. apply steps_preserves_mkdir_from. Qed.

Lemma steps_preserves_get_models_directory : steps preserves get_models_directory.
Proof. intros w. reflexivity. Qed.

Lemma steps_preserves_download_model_files m : steps preserves (download_model_files m).
Proof.
  unfold download_model_files.
  apply steps_bind; [apply _|apply steps_preserves_get_models_directory|].
  intros root. destruct m as [g|s|].
  - apply steps_bind; [apply _|apply steps_preserves_mkdir|]. intros _.
    apply steps_bind; [apply _|apply steps_preserves_download_file|]. intros _.
    destruct (mmproj g) as [[|a s]|]; try (apply steps_ret; apply _).
    apply steps_preserves_download_file.
  - apply steps_bind; [apply _|apply steps_preserves_mkdir|]. intros _.
    apply steps_raise; apply _.
  - apply steps_raise; apply _.
Qed.

Lemma steps_preserves_open_rb s : steps preserves (open_rb s).
Proof.
  intros w. unfold open_rb. destruct (locate_str w s); [|reflexivity].
  destruct (node_at _ _) as [[?|]|]; [destruct (needs_directory s)|..];
    (split; [done|by eexists [_]|done]).
Qed.

Lemma steps_preserves_emit e : steps preserves (emit e).
Proof. intros w. split; [done|by eexists [_]|done]. Qed.

Section CommandsPreserve.
Variable json_loads : bytes -> option pyval.

Lemma steps_preserves_load path :
  steps preserves (_load_and_validate_models json_loads path).
Proof.
  unfold _load_and_validate_models.
  apply steps_bind; [apply _|apply steps_preserves_open_rb|]. intros text.
  destruct (json_loads text) as [[| | | | | |kw]|]; try (apply steps_raise; apply _).
  destruct (ModelsConfig_fields kw).
  - apply steps_bind; [apply _|apply steps_preserves_emit|]. intros.
    apply steps_raise; apply _.
  - apply steps_bind; [apply _|apply steps_preserves_emit|]. intros.
    apply steps_ret; apply _.
Qed.

Lemma steps_preserves_get_ggufs v : steps preserves (get_ggufs v).
Proof.
  unfold get_ggufs. destruct v; try (apply steps_raise; apply _).
  destruct (default _ _); try (apply steps_raise; apply _). apply steps_ret; apply _.
Qed.

Lemma steps_preserves_parse_gguf v : steps preserves (parse_gguf v).
Proof.
  unfold parse_gguf. destruct v; try (apply steps_raise; apply _).
  destruct (GGUFModelsConfig_fields _); [apply steps_raise|apply steps_ret]; apply _.
Qed.

Lemma steps_preserves_download_models f dir o :
  steps preserves (download_models json_loads f dir o).
Proof.
  unfold download_models.
  apply steps_bind; [apply _|intros w; reflexivity|]. intros here.
  apply steps_bind; [apply _|apply steps_preserves_load|]. intros defs.
  apply steps_bind; [apply _|apply steps_preserves_get_ggufs|]. intros entries.
  apply steps_for_each; [apply _|]. intros entry.
  apply steps_bind; [apply _|apply steps_preserves_parse_gguf|]. intros g.
  apply steps_preserves_download_model_files.
Qed.

End CommandsPreserve.

(** ** What a command may raise *)

Section Raises.
Context (P : exn -> Prop).

Lemma raises_ret {A} (a : A) : raises_only P (ret a).
Proof. by intros w e. Qed.

Lemma raises_raise {A} e : P e -> raises_only P (@raise A e).
Proof. intros H w e' [= <-]. done. Qed.

Lemma raises_bind {A B} (m : M A) (k : A -> M B) :
  raises_only P m -> (∀ a, raises_only P (k a)) -> raises_only P (bind m k).
Proof.
  intros Hm Hk w e. unfold bind. specialize (Hm w).
  destruct (m w) as [[a|e'] w1]; simpl in *; [apply Hk|].
  intros [= <-]. by apply Hm.
Qed.

Lemma raises_for_each {A} (l : list A) (body : A -> M unit) :
  (∀ x, raises_only P (body x)) -> raises_only P (for_each l body).
Proof.
  intros Hb. induction l as [|x l IH]; simpl; [apply raises_ret|].
  apply raises_bind; auto.
Qed.

Lemma raises_emit ev : raises_only P (emit ev).
Proof. by intros w e. Qed.

End Raises.

Lemma raises_mono {A} (P Q : exn -> Prop) (m : M A) :
  (∀ e, P e -> Q e) -> raises_only P m -> raises_only Q m.
Proof. intros H Hm w e He. eauto. Qed.

Lemma missing_error_OSError fsys k : is_OSError (missing_error fsys k).
Proof. unfold missing_error, is_OSError. destruct (file_above fsys k); naive_solver. Qed.

Lemma raises_open_rb s : raises_only is_OSError (open_rb s).
Proof.
  intros w e. unfold open_rb. destruct (locate_str w s); simpl.
  - destruct (node_at _ _) as [[?|]|]; [destruct (needs_directory s)|..]; simpl;
      try done; intros [= <-]; try apply missing_error_OSError;
      unfold is_OSError; naive_solver.
  - unfold is_OSError. naive_solver.
Qed.

Lemma raises_open_wb p : raises_only is_OSError (open_wb p).
Proof.
  intros w e. unfold open_wb.
  destruct (node_at _ (locate w p)) as [[?|]|]; simpl;
    [unfold is_OSError; naive_solver..|].
  destruct (node_at _ _) as [[?|]|]; simpl; try done; intros [= <-];
    try apply missing_error_OSError; unfold is_OSError; naive_solver.
Qed.

Lemma raises_os_path_getsize s : raises_only is_OSError (os_path_getsize s).
Proof.
  intros w e. unfold os_path_getsize. destruct (locate_str w s); simpl.
  - destruct (node_at _ _) as [[?|]|]; [destruct (needs_directory s)|..]; simpl;
      try done; intros [= <-]; try apply missing_error_OSError;
      unfold is_OSError; naive_solver.
  - unfold is_OSError. naive_solver.
Qed.

Lemma raises_mkdir_from pre rest : raises_only is_OSError (mkdir_from pre rest).
Proof.
  revert pre. induction rest as [|x rest IH]; intros pre w e; simpl; [done|].
  destruct (node_at _ _) as [[?|]|]; simpl; [|apply IH..].
  unfold is_OSError. destruct rest; naive_solver.
Qed.

Lemma raises_write P p chunk : raises_only P (write p chunk).
Proof. by intros w e. Qed.

Lemma raises_transfer u destination : raises_only transfer_exn (transfer u destination).
Proof.
  unfold transfer, download_local, download_remote, shutil_copyfileobj,
    for_iter_content, pbar_update.
  assert (∀ e, is_OSError e -> transfer_exn e) as Hos by (intros; by left).
  case_match.
  - apply raises_bind; [by intros w e|]. intros found.
    apply raises_bind.
    { destruct found; [|apply raises_ret].
      apply raises_bind; [|intros; apply raises_ret].
      eapply raises_mono; [exact Hos|apply raises_os_path_getsize]. }
    intros total. apply raises_bind.
    { eapply raises_mono; [exact Hos|apply raises_open_rb]. }
    intros src. apply raises_bind.
    { eapply raises_mono; [exact Hos|apply raises_open_wb]. }
    intros _. destruct total as [[|n]|];
      apply raises_for_each; intros chunk; try apply raises_write.
    apply raises_bind; [apply raises_write|intros; apply raises_emit].
  - apply raises_bind.
    { intros w e. unfold requests_get. destruct (net w u); simpl; [|done].
      intros [= <-]. by right; right. }
    intros r. apply raises_bind.
    { unfold raise_for_status. case_match; [|apply raises_ret].
      apply raises_raise. by right; right. }
    intros _. apply raises_bind.
    { unfold int_content_length. case_match; try apply raises_ret.
      apply raises_raise. by right; left. }
    intros total. apply raises_bind.
    { eapply raises_mono; [exact Hos|apply raises_open_wb]. }
    intros _.
    assert (raises_only transfer_exn
              (if stream_breaks r then raise ChunkedEncodingError else ret ())) as Hend.
    { destruct (stream_breaks r); [|apply raises_ret]. apply raises_raise. by right; right. }
    destruct (0 <? total)%Z; (apply raises_bind; [|intros; exact Hend]);
      apply raises_for_each; intros [|a s]; try apply raises_ret; by intros w e.
Qed.

Lemma raises_download_file u destination :
  raises_only fetch_exn (_download_file u destination).
Proof.
  intros w e. destruct (decide (exists_at w destination)) as [H|H].
  - by rewrite download_file_present.
  - rewrite download_file_absent by done. unfold try_except.
    pose proof (raises_transfer u destination w) as Ht.
    destruct (transfer u destination w) as [[[]|e'] w1]; simpl in *; [done|].
    specialize (Ht e' eq_refl).
    destruct (is_RequestException e') eqn:E; simpl; [done|].
    intros [= <-]. split; [|done]. destruct Ht as [?|[?|?]]; [by left|by right|congruence].
Qed.

(** ** Copying bytes *)

Lemma str_app_cons a (s t : string) : String a s +:+ t = String a (s +:+ t).
Proof. reflexivity. Qed.

Lemma str_app_nil_l (s : string) : "" +:+ s = s.
Proof. reflexivity. Qed.

Lemma str_app_nil_r (s : string) : s +:+ "" = s.
Proof. induction s as [|a s IH]; [done|]. by rewrite str_app_cons, IH. Qed.

Lemma str_app_assoc (a b c : string) : (a +:+ b) +:+ c = a +:+ (b +:+ c).
Proof. induction a as [|x a IH]; [done|]. by rewrite !str_app_cons, IH. Qed.

Lemma str_app_length (a b : string) :
  String.length (a +:+ b) = String.length a + String.length b.
Proof. induction a as [|x a IH]; [done|]. rewrite str_app_cons. simpl. by rewrite IH. Qed.

Lemma take_drop_app n s : (take_drop n s).1 +:+ (take_drop n s).2 = s.
Proof.
  revert n. induction s as [|ch s IH]; intros n; simpl; [done|].
  destruct (N.eqb n 0); [done|].
  specialize (IH (N.pred n)). destruct (take_drop (N.pred n) s). simpl in *.
  rewrite str_app_cons. congruence.
Qed.

Lemma take_drop_progress n s :
  n ≠ 0%N -> s ≠ "" -> (take_drop n s).1 ≠ "".
Proof.
  intros Hn Hs. destruct s as [|ch s]; [done|]. simpl.
  destruct (N.eqb_spec n 0); [done|]. by destruct (take_drop (N.pred n) s).
Qed.

Lemma read_chunks_go_join fuel n s :
  n ≠ 0%N -> (String.length s ≤ fuel)%nat -> join_chunks (read_chunks_go fuel n s) = s.
Proof.
  intros Hn. revert s. induction fuel as [|fuel IH]; intros s Hlen; simpl.
  - destruct s; [done|simpl in Hlen; lia].
  - pose proof (take_drop_app n s) as Happ.
    pose proof (take_drop_progress n s Hn) as Hpr.
    destruct (take_drop n s) as [h t]. simpl in *.
    destruct h as [|ch h].
    + destruct s; [done|]. by destruct Hpr.
    + simpl. rewrite IH; [done|].
      apply (f_equal String.length) in Happ.
      rewrite str_app_length in Happ. simpl in Happ. lia.
Qed.

Lemma read_chunks_join n s : n ≠ 0%N -> join_chunks (read_chunks n s) = s.
Proof. intros Hn. by apply read_chunks_go_join. Qed.

Lemma read_chunks_empty n : read_chunks n "" = [].
Proof. reflexivity. Qed.

Lemma for_each_appends destination body chunks w old :
  appends destination body ->
  fs w !! locate w destination = Some (File old) ->
  (for_each chunks body w).1 = Ok tt
  ∧ cwd (for_each chunks body w).2 = cwd w
  ∧ fs (for_each chunks body w).2 !! locate w destination
    = Some (File (old +:+ join_chunks chunks)).
Proof.
  intros Hb. revert w old. induction chunks as [|ch chunks IH]; intros w old Hold; simpl.
  - by rewrite str_app_nil_r.
  - unfold bind. destruct (Hb ch w old Hold) as (Hr & Hc & Hf).
    destruct (body ch w) as [r w1]. simpl in *. subst r.
    assert (locate w1 destination = locate w destination) as Hl
      by (by rewrite !locate_cwd, Hc).
    rewrite <- Hl in Hf. destruct (IH w1 _ Hf) as (Hr' & Hc' & Hf').
    rewrite Hl in Hf'. rewrite str_app_assoc in Hf'. split; [done|]. split; [congruence|done].
Qed.

Lemma appends_write destination : appends destination (write destination).
Proof.
  intros chunk w old Hold. unfold write. simpl. rewrite Hold.
  by rewrite lookup_insert_eq.
Qed.

Lemma appends_write_progress destination :
  appends destination
    (fun chunk => write destination chunk ;; pbar_update (String.length chunk)).
Proof.
  intros chunk w old Hold. unfold write, bind, pbar_update, emit. simpl. rewrite Hold.
  by rewrite lookup_insert_eq.
Qed.

Lemma appends_nonempty destination (body : bytes -> M unit) :
  appends destination body ->
  appends destination
    (fun chunk => match chunk with EmptyString => ret tt | _ => body chunk end).
Proof.
  intros Hb [|a s] w old Hold; [|by apply Hb]. simpl. by rewrite str_app_nil_r.
Qed.

(** ** A local copy that goes through *)

Lemma open_wb_creates destination w :
  ¬ exists_at w destination ->
  node_at (fs w) (removelast (locate w destination)) = Some Dir ->
  open_wb destination w
  = (Ok tt, set_fs (add_event w (EvOpenWrite (locate w destination)))
              (<[locate w destination := File ""]> (fs w))).
Proof.
  intros Hd Hp. unfold open_wb. rewrite Hp.
  destruct (node_at (fs w) (locate w destination)) eqn:E; [|done].
  destruct Hd. unfold exists_at. by rewrite E.
Qed.

Lemma transfer_local_ok u destination w ks content :
  startswith "file://" u = true ->
  locate_str w (str_remove "file://" u) = Some ks ->
  needs_directory (str_remove "file://" u) = false ->
  node_at (fs w) ks = Some (File content) ->
  ¬ exists_at w destination ->
  node_at (fs w) (removelast (locate w destination)) = Some Dir ->
  (transfer u destination w).1 = Ok tt
  ∧ fs (transfer u destination w).2 !! locate w destination = Some (File content).
Proof.
  intros Hu Hks Hfile Hsrc Hd Hp.
  set (w1 := add_event w (EvOpenRead ks)).
  set (w2 := set_fs (add_event w1 (EvOpenWrite (locate w1 destination)))
               (<[locate w1 destination := File ""]> (fs w1))).
  assert (transfer u destination w
          = match String.length content with
            | S _ => for_each (read_chunks CHUNK_SIZE content)
                       (fun chunk => write destination chunk ;;
                                     pbar_update (String.length chunk))
            | O => shutil_copyfileobj content destination
            end w2) as ->.
  { unfold transfer. rewrite Hu. unfold download_local. cbv zeta.
    set (lp := str_remove "file://" u) in *.
    unfold bind, os_path_exists, os_path_getsize, open_rb. cbv beta.
    rewrite Hks. change (Some ks ≫= node_at (fs w)) with (node_at (fs w) ks).
    rewrite Hsrc, Hfile. cbn [negb]. cbv beta iota. rewrite Hks, Hsrc.
    unfold ret. cbv beta iota. rewrite Hks, Hsrc. fold w1.
    assert (¬ exists_at w1 destination) as Hd1 by done.
    rewrite (open_wb_creates destination w1 Hd1 Hp). fold w2.
    by destruct (String.length content). }
  assert (fs w2 !! locate w2 destination = Some (File "")) as H2
    by (subst w2; simpl; change (locate w1 destination) with (locate w destination);
        by rewrite lookup_insert_eq).
  change (locate w destination) with (locate w2 destination).
  destruct (String.length content) as [|n] eqn:Elen.
  - destruct content; [|done]. unfold shutil_copyfileobj.
    rewrite read_chunks_empty. simpl. done.
  - destruct (for_each_appends destination _ (read_chunks CHUNK_SIZE content) w2 ""
                (appends_write_progress destination) H2) as (Hr & _ & Hf).
    split; [done|]. rewrite Hf. by rewrite read_chunks_join.
Qed.

Lemma download_file_local_ok u destination w ks content :
  startswith "file://" u = true ->
  locate_str w (str_remove "file://" u) = Some ks ->
  needs_directory (str_remove "file://" u) = false ->
  node_at (fs w) ks = Some (File content) ->
  ¬ exists_at w destination ->
  node_at (fs w) (removelast (locate w destination)) = Some Dir ->
  (_download_file u destination w).1 = Ok tt
  ∧ fs (_download_file u destination w).2 !! locate w destination = Some (File content).
Proof.
  intros Hu Hks Hfile Hsrc Hd Hp. rewrite download_file_absent by done.
  destruct (transfer_local_ok u destination w ks content) as [Hr Hf]; try done.
  unfold try_except. destruct (transfer u destination w) as [[[]|e] w1]; by simpl in *.
Qed.

(** ** C2: the existence short-circuit and repeated fetches *)

Lemma events_since_add w e : events_since w (add_event w e) = [e].
Proof. unfold events_since. simpl. by rewrite drop_app_length. Qed.

Lemma exists_at_frame w w' p : frame w w' -> fs w' = fs w -> exists_at w' p <-> exists_at w p.
Proof. intros (Hc & _) Hf. unfold exists_at. by rewrite !locate_cwd, Hc, Hf. Qed.

#[local] Instance grows_preorder : PreOrder grows.
Proof.
  split.
  - by intros w.
  - intros w1 w2 w3 [Hc1 H1] [Hc2 H2]. split; [congruence|auto].
Qed.

Lemma grows_same_fs w w' : cwd w' = cwd w -> fs w' = fs w -> grows w w'.
Proof. intros Hc Hf. split; [done|]. intros k. by rewrite Hf. Qed.

Lemma grows_insert w w' k n :
  cwd w' = cwd w -> fs w' = <[k := n]> (fs w) -> grows w w'.
Proof.
  intros Hc Hf. split; [done|]. intros k' Hk'. rewrite Hf.
  destruct (decide (k = k')) as [->|Hne]; [by rewrite lookup_insert_eq|].
  by rewrite lookup_insert_ne.
Qed.

Lemma grows_exists_at w w' p : grows w w' -> exists_at w p -> exists_at w' p.
Proof.
  intros [Hc Hf]. unfold exists_at. rewrite !locate_cwd, Hc.
  destruct (PurePath.parts _) as [|x k]; [done|]. apply Hf.
Qed.

Lemma steps_grows_emit e : steps grows (emit e).
Proof. intros w. by apply grows_same_fs. Qed.

Lemma steps_grows_write p chunk : steps grows (write p chunk).
Proof. intros w. by eapply grows_insert. Qed.

Lemma steps_grows_open_wb p : steps grows (open_wb p).
Proof.
  intros w. unfold open_wb.
  destruct (node_at (fs w) (locate w p)) as [[?|]|];
    [by eapply grows_insert|by apply grows_same_fs|].
  destruct (node_at (fs w) (removelast (locate w p))) as [[?|]|];
    [by apply grows_same_fs|by eapply grows_insert|by apply grows_same_fs].
Qed.

Lemma lands_open_wb p : lands p (open_wb p).
Proof.
  intros w []. unfold open_wb, exists_at.
  destruct (node_at (fs w) (locate w p)) as [[?|]|] eqn:E; simpl; try done.
  - intros _. change (locate _ p) with (locate w p).
    destruct (locate w p); [done|]. simpl. by rewrite lookup_insert_eq.
  - destruct (node_at (fs w) (removelast (locate w p))) as [[?|]|]; simpl; try done.
    intros _. change (locate _ p) with (locate w p).
    destruct (locate w p); [done|]. simpl. by rewrite lookup_insert_eq.
Qed.

Lemma lands_after {A B} p (m : M A) (k : A -> M B) :
  (∀ a, lands p (k a)) -> lands p (bind m k).
Proof.
  intros Hk w b. unfold bind. destruct (m w) as [[a|e] w1]; [apply Hk|done].
Qed.

Lemma lands_before {A B} p (m : M A) (k : A -> M B) :
  lands p m -> (∀ a, steps grows (k a)) -> lands p (bind m k).
Proof.
  intros Hm Hk w b. unfold bind. specialize (Hm w).
  destruct (m w) as [[a|e] w1] eqn:E; [|done]. intros _.
  eapply grows_exists_at; [apply Hk|]. by eapply Hm.
Qed.

Lemma steps_grows_for_iter_content r body :
  (∀ chunk, steps grows (body chunk)) -> steps grows (for_iter_content r body).
Proof.
  intros Hb. unfold for_iter_content.
  apply steps_bind; [apply _|by apply steps_for_each; [apply _|]|]. intros _.
  destruct (stream_breaks r); [apply steps_raise|apply steps_ret]; apply _.
Qed.

(** A transfer that goes through leaves a file at the destination. *)
Lemma lands_transfer u destination : lands destination (transfer u destination).
Proof.
  unfold transfer. destruct (startswith "file://" u).
  - unfold download_local. do 3 (apply lands_after; intros ?).
    apply lands_before; [apply lands_open_wb|]. intros _.
    assert (∀ chunk, steps grows (write destination chunk ;;
                                  pbar_update (String.length chunk))) as Hbody.
    { intros chunk. apply steps_bind; [apply _|apply steps_grows_write|].
      intros _. apply steps_grows_emit. }
    destruct a0 as [[|n]|].
    + apply steps_for_each; [apply _|]. intros chunk. apply steps_grows_write.
    + by apply steps_for_each; [apply _|].
    + apply steps_for_each; [apply _|]. intros chunk. apply steps_grows_write.
  - unfold download_remote. do 3 (apply lands_after; intros ?).
    apply lands_before; [apply lands_open_wb|]. intros _.
    destruct (0 <? _)%Z; apply steps_grows_for_iter_content; intros [|c chunk];
      first [ apply steps_ret; apply _
            | apply steps_grows_write
            | apply steps_bind; [apply _|apply steps_grows_write|];
              intros _; apply steps_grows_emit ].
Qed.

(** C2: a fetch into a destination that exists returns without any
    transfer and without touching the file system.  So, of two fetches in
    a row with the same locator and destination, the second is idle once
    the first has succeeded, that is, found the destination in place or
    carried its transfer through: the first leaves a file at the
    destination, and the second leaves the file system, and with it the
    content of the destination, as the first left it. *)
Theorem fetch_skips_existing_destination u destination w :
  (exists_at w destination ->
     (_download_file u destination w).1 = Ok tt
     ∧ fs (_download_file u destination w).2 = fs w
     ∧ List.filter is_transfer (events_since w (_download_file u destination w).2) = [])
  ∧ (fetch_error u destination w = None ->
     (_download_file u destination w).1 = Ok tt
     ∧ exists_at (_download_file u destination w).2 destination
     ∧ second_fetch_is_idle u destination w).
Proof.
  assert (∀ w0, exists_at w0 destination ->
     (_download_file u destination w0).1 = Ok tt
     ∧ fs (_download_file u destination w0).2 = fs w0
     ∧ List.filter is_transfer (events_since w0 (_download_file u destination w0).2) = [])
    as Hidle.
  { intros w0 H. rewrite download_file_present by done. simpl.
    by rewrite events_since_add. }
  split; [apply Hidle|].
  intros Hok.
  assert ((_download_file u destination w).1 = Ok tt
          ∧ exists_at (_download_file u destination w).2 destination) as [Hr Hex].
  { unfold fetch_error in Hok.
    destruct (decide (exists_at w destination)) as [H|H].
    - rewrite download_file_present by done. split; [done|].
      by apply (exists_at_frame w).
    - rewrite bool_decide_eq_false_2 in Hok by done.
      rewrite download_file_absent by done. unfold try_except.
      pose proof (lands_transfer u destination w) as Hl.
      destruct (transfer u destination w) as [[[]|e] w1]; [|done].
      split; [done|]. by apply (Hl tt). }
  split; [done|]. split; [done|].
  destruct (Hidle _ Hex) as (_ & Hf & Hev). by split.
Qed.

(** The local fixture is copied by the first fetch, and the second is idle. *)
Lemma fetch_skips_existing_destination_witness :
  (_download_file "file:///srv/fixtures/tiny.gguf" (Path "/srv/tiny.gguf") offline_world).1
    = Ok tt
  ∧ exists_at
      (_download_file "file:///srv/fixtures/tiny.gguf" (Path "/srv/tiny.gguf")
         offline_world).2 (Path "/srv/tiny.gguf")
  ∧ second_fetch_is_idle "file:///srv/fixtures/tiny.gguf" (Path "/srv/tiny.gguf") offline_world.
Proof.
  apply (proj2 (fetch_skips_existing_destination "file:///srv/fixtures/tiny.gguf"
                  (Path "/srv/tiny.gguf") offline_world)).
  vm_compute. reflexivity.
Defined.

(** ** C4: transport failures *)

(** C4, as stated, fails: the fetch from an unreachable host ends in a
    [ConnectionError], and the caller gets the result of a successful
    fetch. *)
Lemma transport_failure_is_not_reported :
  fetch_error "https://models.example/tiny.gguf" (Path "/srv/tiny.gguf") offline_world
    = Some ConnectionError
  ∧ ¬ failure_reaches_caller "https://models.example/tiny.gguf"
        (Path "/srv/tiny.gguf") offline_world.
Proof.
  split; [by vm_compute|]. intros H.
  apply (H ConnectionError); by vm_compute.
Qed.

(** C4 (amended): an error of the HTTP client (an unreachable host, a
    failure status, a stream that breaks) never leaves the fetcher; it is
    printed, and the fetcher returns as it does after a success. *)
Theorem transport_failure_is_swallowed u destination w :
  (∀ e, (_download_file u destination w).1 = Raise e -> is_RequestException e = false)
  ∧ (∀ e, fetch_error u destination w = Some e -> is_RequestException e = true ->
       _download_file u destination w
       = (Ok tt, add_event (transfer u destination w).2
                   (EvPrint "Error downloading the file:")))
  ∧ (startswith "file://" u = false -> ¬ exists_at w destination ->
     net w u = Unreachable ->
       fetch_error u destination w = Some ConnectionError
       ∧ _download_file u destination w
         = (Ok tt, add_event (add_event w (EvGet u))
                     (EvPrint "Error downloading the file:"))).
Proof.
  assert (∀ e, fetch_error u destination w = Some e -> is_RequestException e = true ->
       _download_file u destination w
       = (Ok tt, add_event (transfer u destination w).2
                   (EvPrint "Error downloading the file:"))) as Hcaught.
  { intros e He Hreq. unfold fetch_error in He. case_bool_decide as Hex; [done|].
    rewrite download_file_absent by done. unfold try_except.
    destruct (transfer u destination w) as [[[]|e'] w1]; simpl in *; [done|].
    injection He as ->. by rewrite Hreq. }
  split; [|split; [exact Hcaught|]].
  - intros e He. by destruct (raises_download_file u destination w e He).
  - intros Hu Hex Hnet.
    assert (transfer u destination w = (Raise ConnectionError, add_event w (EvGet u))) as Ht.
    { unfold transfer. rewrite Hu. unfold download_remote, bind, requests_get.
      by rewrite Hnet. }
    assert (fetch_error u destination w = Some ConnectionError) as He.
    { unfold fetch_error. rewrite bool_decide_eq_false_2 by done. by rewrite Ht. }
    split; [done|]. rewrite (Hcaught _ He eq_refl). by rewrite Ht.
Qed.

(** The unreachable host of the fixture. *)
Lemma transport_failure_is_swallowed_witness :
  fetch_error "https://models.example/tiny.gguf" (Path "/srv/tiny.gguf") offline_world
    = Some ConnectionError
  ∧ _download_file "https://models.example/tiny.gguf" (Path "/srv/tiny.gguf") offline_world
    = (Ok tt, add_event (add_event offline_world (EvGet "https://models.example/tiny.gguf"))
                (EvPrint "Error downloading the file:")).
Proof.
  apply (proj2 (proj2 (transport_failure_is_swallowed "https://models.example/tiny.gguf"
                         (Path "/srv/tiny.gguf") offline_world))).
  - reflexivity.
  - vm_compute. intros [x H]. discriminate.
  - reflexivity.
Defined.

(** ** C5: a local source that is missing *)

(** C5: a fetch with a [file://] locator whose local path does not
    exist, into a destination that is not there yet, raises the error the
    system gives for the path: [FileNotFoundError], or
    [NotADirectoryError] when the path goes through a regular file.  The
    file system is unchanged, so nothing is created at the destination. *)
Theorem missing_local_source_raises u destination w :
  startswith "file://" u = true ->
  source_missing u w ->
  ¬ exists_at w destination ->
  (∃ e, fetch_error u destination w = Some e
        ∧ SourceNotFound e
        ∧ (_download_file u destination w).1 = Raise e
        ∧ ∀ k, locate_str w (str_remove "file://" u) = Some k ->
               node_at (fs w) k = None -> e = missing_error (fs w) k)
  ∧ missing_source_reported u destination w
  ∧ ¬ exists_at (_download_file u destination w).2 destination.
Proof.
  intros Hu Hsrc Hex. unfold source_missing, os_path_exists in Hsrc.
  assert (∃ e w1, transfer u destination w = (Raise e, w1)
                  ∧ SourceNotFound e
                  ∧ (∀ k, locate_str w (str_remove "file://" u) = Some k ->
                          node_at (fs w) k = None -> e = missing_error (fs w) k)
                  ∧ fs w1 = fs w ∧ cwd w1 = cwd w) as (e & w1 & Ht & He & Hk & Hf & Hc).
  { unfold transfer. rewrite Hu. unfold download_local. cbv zeta.
    set (lp := str_remove "file://" u) in *.
    unfold bind at 1, os_path_exists. cbv beta iota. simpl in Hsrc.
    injection Hsrc as Hsrc. rewrite Hsrc.
    unfold bind at 1, ret. cbv beta iota. unfold bind at 1, open_rb.
    destruct (locate_str w lp) as [k|].
    - simpl in Hsrc. destruct (node_at (fs w) k) as [[c|]|] eqn:E; [|done|].
      + apply negb_false_iff in Hsrc. rewrite Hsrc.
        exists NotADirectoryError. eexists. split; [reflexivity|].
        split; [by right|]. split; [|done]. by intros ? [= <-] ?; simplify_eq.
      + exists (missing_error (fs w) k). eexists. split; [reflexivity|].
        split; [|split; [|done]].
        * unfold missing_error, SourceNotFound.
          destruct (file_above (fs w) k); [by right|by left].
        * by intros ? [= <-] _.
    - exists FileNotFoundError. eexists. split; [reflexivity|].
      split; [by left|]. by split. }
  assert (_download_file u destination w = (Raise e, w1)) as Hrun.
  { rewrite download_file_absent by done. unfold try_except. rewrite Ht.
    by destruct He as [-> | ->]. }
  split; [|split].
  - exists e. split; [|split; [done|split; [by rewrite Hrun|done]]].
    unfold fetch_error. rewrite bool_decide_eq_false_2 by done. by rewrite Ht.
  - unfold missing_source_reported. rewrite Hrun. split; [by exists e|done].
  - rewrite Hrun. simpl. unfold exists_at in *. by rewrite locate_cwd, Hc, Hf.
Qed.

(** Nothing is at the path of the locator, the directory of which exists. *)
Lemma missing_local_source_raises_witness :
  (∃ e, fetch_error "file:///srv/fixtures/absent.gguf" (Path "/srv/tiny.gguf") offline_world
          = Some e
        ∧ SourceNotFound e
        ∧ (_download_file "file:///srv/fixtures/absent.gguf" (Path "/srv/tiny.gguf")
             offline_world).1 = Raise e
        ∧ ∀ k, locate_str offline_world
                 (str_remove "file://" "file:///srv/fixtures/absent.gguf") = Some k ->
               node_at (fs offline_world) k = None ->
               e = missing_error (fs offline_world) k)
  ∧ missing_source_reported "file:///srv/fixtures/absent.gguf"
      (Path "/srv/tiny.gguf") offline_world
  ∧ ¬ exists_at (_download_file "file:///srv/fixtures/absent.gguf"
                   (Path "/srv/tiny.gguf") offline_world).2 (Path "/srv/tiny.gguf").
Proof.
  apply (missing_local_source_raises "file:///srv/fixtures/absent.gguf"
           (Path "/srv/tiny.gguf") offline_world).
  - reflexivity.
  - vm_compute. reflexivity.
  - vm_compute. intros [x H]. discriminate.
Defined.

(** A path that goes through a regular file: the error is [ENOTDIR]. *)
Lemma source_below_a_file_raises_NotADirectoryError :
  (_download_file "file:///srv/fixtures/tiny.gguf/x" (Path "/srv/tiny.gguf")
     offline_world).1 = Raise NotADirectoryError
  ∧ (_download_file "file:///srv/fixtures/tiny.gguf/" (Path "/srv/tiny.gguf")
       offline_world).1 = Raise NotADirectoryError.
Proof. split; vm_compute; reflexivity. Qed.

Lemma get_models_directory_run w : get_models_directory w = (Ok (models_root w), w).
Proof. reflexivity. Qed.

(** The run of a quantized entry once its directory is in place. *)
Lemma download_gguf_run g w w0 :
  mkdir_parents_exist_ok (entry_directory (models_root w) g) w = (Ok tt, w0) ->
  download_model_files (OfGGUF g) w
  = match _download_file (url g) (primary_destination (models_root w) g) w0 with
    | (Ok _, w1) =>
        match mmproj g with
        | Some (String _ _ as projector) =>
            _download_file projector (projector_destination (models_root w) g) w1
        | _ => (Ok tt, w1)
        end
    | (Raise e, w1) => (Raise e, w1)
    end.
Proof.
  intros Hmk. unfold download_model_files, bind. rewrite get_models_directory_run.
  fold (entry_directory (models_root w) g). rewrite Hmk.
  fold (primary_destination (models_root w) g).
  destruct (_download_file (url g) _ w0) as [[[]|e] w1]; [|done].
  by destruct (mmproj g) as [[|a s]|].
Qed.

(** ** C8: the projector after a failed primary fetch *)

(** C8, as stated, fails: the primary host is unreachable, and the
    projector is fetched all the same. *)
Lemma projector_fetched_after_primary_failure :
  ¬ projector_skipped_after_failure remote_with_projector offline_world
  ∧ fs (download_model_files (OfGGUF remote_with_projector) offline_world).2
      !! ["srv"; "models"; "gguf"; "tiny"; "tiny.gguf"] = None
  ∧ fs (download_model_files (OfGGUF remote_with_projector) offline_world).2
      !! ["srv"; "models"; "gguf"; "tiny"; "mmproj_tiny.gguf"]
    = Some (File "GGUF-projector").
Proof.
  split; [|by vm_compute].
  intros H.
  specialize (H (mkdir_parents_exist_ok
                   (entry_directory (models_root offline_world) remote_with_projector)
                   offline_world).2 ConnectionError).
  assert (∀ w1 w2 : world, w1 = w2 ->
            fs w1 !! ["srv"; "models"; "gguf"; "tiny"; "mmproj_tiny.gguf"]
            = fs w2 !! ["srv"; "models"; "gguf"; "tiny"; "mmproj_tiny.gguf"]) as Hfs
    by (by intros ? ? ->).
  apply Hfs in H; [|by vm_compute..]. vm_compute in H. discriminate.
Qed.

(** C8 (amended): with the entry's directory in place, a primary fetch
    that raises ends the run of the entry with its exception, before the
    projector is looked at; an error of the HTTP client is swallowed by
    the fetcher, the primary fetch returns, and the projector is fetched
    next; and whatever the projector fetch does, everything the primary
    fetch left in the file system is still there afterwards. *)
Theorem projector_after_primary_fetch g w w0 :
  mkdir_parents_exist_ok (entry_directory (models_root w) g) w = (Ok tt, w0) ->
  let primary := _download_file (url g) (primary_destination (models_root w) g) w0 in
  (∀ e, primary.1 = Raise e -> download_model_files (OfGGUF g) w = (Raise e, primary.2))
  ∧ (∀ e, fetch_error (url g) (primary_destination (models_root w) g) w0 = Some e ->
       if is_RequestException e then primary.1 = Ok tt else primary.1 = Raise e)
  ∧ (∀ a s, primary.1 = Ok tt -> mmproj g = Some (String a s) ->
       download_model_files (OfGGUF g) w
       = _download_file (String a s) (projector_destination (models_root w) g) primary.2)
  ∧ (∀ k n, fs primary.2 !! k = Some n ->
       fs (download_model_files (OfGGUF g) w).2 !! k = Some n).
Proof.
  intros Hmk primary.
  pose proof (download_gguf_run g w w0 Hmk) as Hrun. fold primary in Hrun.
  repeat split.
  - intros e He. rewrite Hrun. destruct primary as [[[]|e'] w1]; simpl in *; congruence.
  - intros e He. unfold fetch_error in He. case_bool_decide as Hex; [done|].
    subst primary. rewrite download_file_absent by done. unfold try_except.
    destruct (transfer _ _ w0) as [[[]|e'] w1]; simpl in *; [done|].
    injection He as ->. by destruct (is_RequestException e).
  - intros a s Hp Hm. rewrite Hrun, Hm.
    destruct primary as [[[]|e'] w1]; simpl in *; congruence.
  - intros k n Hk. rewrite Hrun. destruct primary as [[[]|e'] w1]; simpl in *; [|done].
    destruct (mmproj g) as [[|a s]|]; try done.
    by apply (steps_preserves_download_file (String a s) _ w1).
Qed.

Lemma projector_after_primary_fetch_witness :
  let w := offline_world in
  let g := remote_with_projector in
  let w0 := (mkdir_parents_exist_ok (entry_directory (models_root w) g) w).2 in
  let primary := _download_file (url g) (primary_destination (models_root w) g) w0 in
  (∀ e, primary.1 = Raise e -> download_model_files (OfGGUF g) w = (Raise e, primary.2))
  ∧ (∀ e, fetch_error (url g) (primary_destination (models_root w) g) w0 = Some e ->
       if is_RequestException e then primary.1 = Ok tt else primary.1 = Raise e)
  ∧ (∀ a s, primary.1 = Ok tt -> mmproj g = Some (String a s) ->
       download_model_files (OfGGUF g) w
       = _download_file (String a s) (projector_destination (models_root w) g) primary.2)
  ∧ (∀ k n, fs primary.2 !! k = Some n ->
       fs (download_model_files (OfGGUF g) w).2 !! k = Some n).
Proof.
  apply (projector_after_primary_fetch remote_with_projector offline_world).
  vm_compute. reflexivity.
Defined.

(** ** C1: tensor-weights entries *)

(** C1, as stated, fails: the manifest declares a tensor-weights entry,
    and the run copies the quantized artifact and returns; no directory is
    made for the tensor-weights family and nothing is raised. *)
Lemma run_returns_despite_tensor_entry :
  let run := download_models loads_fixture "models.json" "models" false manifest_world in
  declared_safetensors manifest_value ≠ []
  ∧ run.1 ≠ Raise NotImplementedError
  ∧ run.1 = Ok tt
  ∧ fs run.2 !! ["srv"; "models"; "gguf"; "tiny"; "tiny.gguf"]
    = Some (File "GGUF-tiny-weights")
  ∧ fs run.2 !! ["srv"; "models"; "safetensors"] = None.
Proof. vm_compute. repeat split; congruence. Qed.

Lemma is_OSError_implemented e : is_OSError e -> e ≠ NotImplementedError.
Proof. intros [->|[->|[->| ->]]]; done. Qed.

Lemma fetch_exn_implemented e : fetch_exn e -> e ≠ NotImplementedError.
Proof. intros [[H| ->] _]; [by apply is_OSError_implemented|done]. Qed.

Lemma raises_download_model_files_gguf g :
  raises_only (fun e => e ≠ NotImplementedError) (download_model_files (OfGGUF g)).
Proof.
  unfold download_model_files.
  apply raises_bind; [by intros w e|]. intros root.
  apply raises_bind.
  { eapply raises_mono; [apply is_OSError_implemented|].
    intros w. apply raises_mkdir_from. }
  intros _. apply raises_bind.
  { eapply raises_mono; [apply fetch_exn_implemented|apply raises_download_file]. }
  intros _. destruct (mmproj g) as [[|a s]|]; try apply raises_ret.
  eapply raises_mono; [apply fetch_exn_implemented|apply raises_download_file].
Qed.

Lemma raises_download_models json_loads f dir o :
  raises_only (fun e => e ≠ NotImplementedError) (download_models json_loads f dir o).
Proof.
  unfold download_models.
  apply raises_bind; [by intros w e|]. intros here.
  apply raises_bind.
  { unfold _load_and_validate_models. apply raises_bind.
    { eapply raises_mono; [apply is_OSError_implemented|apply raises_open_rb]. }
    intros text. destruct (json_loads text) as [[| | | | | |kw]|];
      try (by apply raises_raise).
    destruct (ModelsConfig_fields kw).
    - apply raises_bind; [apply raises_emit|]. intros. by apply raises_raise.
    - apply raises_bind; [apply raises_emit|]. intros. apply raises_ret. }
  intros defs. apply raises_bind.
  { unfold get_ggufs. destruct defs; try (by apply raises_raise).
    destruct (default _ _); try (by apply raises_raise). apply raises_ret. }
  intros entries. apply raises_for_each. intros entry.
  apply raises_bind; [|intros; apply raises_download_model_files_gguf].
  unfold parse_gguf. destruct entry; try (by apply raises_raise).
  destruct (GGUFModelsConfig_fields _); [by apply raises_raise|apply raises_ret].
Qed.

(** ** Validation reports *)

Lemma errors_of_vap {A B} (f : vresult (A -> B)) (a : vresult A) :
  errors_of (f <&> a) = errors_of f ++ errors_of a.
Proof. by destruct f, a. Qed.

Lemma reports_vap {A B} (f : vresult (A -> B)) (a : vresult A) loc t :
  reports (f <&> a) loc t <-> reports f loc t ∨ reports a loc t.
Proof. unfold reports. rewrite errors_of_vap. apply in_app_iff. Qed.

Lemma reports_inr {A} (x : A) loc t : reports (inr x) loc t <-> False.
Proof. done. Qed.

Lemma reports_fail {A} t0 loc t : reports (@fail_with A t0) loc t <-> loc = [] ∧ t = t0.
Proof. unfold reports. simpl. split; [intros [[= <- <-]|[]]|intros [-> ->]]; auto. Qed.

Lemma reports_at_loc {A} i (r : vresult A) loc t :
  reports (at_loc i r) loc t <-> ∃ loc', loc = i :: loc' ∧ reports r loc' t.
Proof.
  unfold reports. destruct r as [es|a]; simpl.
  - rewrite in_map_iff. split.
    + intros ([l' t'] & [= <- <-] & Hin). eauto.
    + intros (loc' & -> & Hin). by eexists {| err_loc := loc'; err_type := t |}.
  - split; [done|]. by intros (? & _ & ?).
Qed.

Lemma proper_vap {A B} (f : vresult (A -> B)) (a : vresult A) :
  proper f -> proper a -> proper (f <&> a).
Proof.
  destruct f as [ef|g], a as [ea|x]; simpl; try done.
  - intros Hf _ H. by apply app_eq_nil in H as [? _].
  - intros Hf _. by rewrite app_nil_r.
Qed.

Lemma proper_at_loc {A} i (r : vresult A) : proper r -> proper (at_loc i r).
Proof. destruct r as [es|a]; simpl; [|done]. by destruct es. Qed.

Lemma proper_succeeds {A} (r : vresult A) :
  proper r -> (∃ a, r = inr a) <-> ∀ loc t, ¬ reports r loc t.
Proof.
  unfold reports. destruct r as [es|a]; simpl; intros Hp.
  - split; [by intros [? ?]|]. intros H. destruct es as [|[loc t] es]; [done|].
    destruct (H loc t). by left.
  - split; [by intros _ ? ? []|by eexists].
Qed.

Lemma reports_required {A} k (val : pyval -> vresult A) d loc t :
  reports (required k val d) loc t
  <-> (dict_get k d = None ∧ loc = [LKey k] ∧ t = E_missing)
      ∨ (∃ v loc', dict_get k d = Some v ∧ loc = LKey k :: loc' ∧ reports (val v) loc' t).
Proof.
  unfold required. destruct (dict_get k d) as [v|]; rewrite reports_at_loc.
  - split; [intros (loc' & -> & H); right; eauto|].
    intros [(? & _)|(v' & loc' & [= <-] & -> & H)]; [done|eauto].
  - split.
    + intros (loc' & -> & H). apply reports_fail in H as [-> ->]. by left.
    + intros [(_ & -> & ->)|(v' & loc' & ? & _)]; [|done].
      exists []. split; [done|]. by apply reports_fail.
Qed.

Lemma reports_with_default {A} k dflt (val : pyval -> vresult A) d loc t :
  reports (with_default k dflt val d) loc t
  <-> ∃ v loc', dict_get k d = Some v ∧ loc = LKey k :: loc' ∧ reports (val v) loc' t.
Proof.
  unfold with_default. destruct (dict_get k d) as [v|].
  - rewrite reports_at_loc. split; [intros (loc' & -> & H); eauto|].
    intros (v' & loc' & [= <-] & -> & H). eauto.
  - split; [done|]. by intros (? & ? & ? & _).
Qed.

Lemma proper_required {A} k (val : pyval -> vresult A) d :
  (∀ v, proper (val v)) -> proper (required k val d).
Proof.
  intros H. unfold required. destruct (dict_get k d); [|done]. by apply proper_at_loc.
Qed.

Lemma proper_with_default {A} k dflt (val : pyval -> vresult A) d :
  (∀ v, proper (val v)) -> proper (with_default k dflt val d).
Proof.
  intros H. unfold with_default. destruct (dict_get k d); [|done]. by apply proper_at_loc.
Qed.

Lemma reports_validate_items {A} (val : pyval -> vresult A) i0 l loc t :
  reports (validate_items val i0 l) loc t
  <-> ∃ i e loc', l !! i = Some e ∧ loc = LIdx (i0 + i) :: loc' ∧ reports (val e) loc' t.
Proof.
  revert i0. induction l as [|x l IH]; intros i0; simpl.
  - split; [done|]. by intros (i & e & loc' & ? & _).
  - rewrite !reports_vap, reports_inr, reports_at_loc, IH. split.
    + intros [[[]|(loc' & -> & H)]|(i & e & loc' & Hl & -> & H)].
      * exists 0, x, loc'. by rewrite Nat.add_0_r.
      * exists (S i), e, loc'. by rewrite Nat.add_succ_r.
    + intros ([|i] & e & loc' & Hl & -> & H); simpl in Hl.
      * injection Hl as ->. left; right. exists loc'. by rewrite Nat.add_0_r.
      * right. exists i, e, loc'. by rewrite Nat.add_succ_r.
Qed.

Lemma proper_validate_items {A} (val : pyval -> vresult A) i0 l :
  (∀ v, proper (val v)) -> proper (validate_items val i0 l).
Proof.
  intros H. revert i0. induction l as [|x l IH]; intros i0; simpl; [done|].
  apply proper_vap; [apply proper_vap; [done|by apply proper_at_loc]|apply IH].
Qed.

Lemma reports_validate_values {A} (val : pyval -> vresult A) d loc t :
  reports (validate_values val d) loc t
  <-> ∃ k x loc', In (k, x) d ∧ loc = LKey k :: loc' ∧ reports (val x) loc' t.
Proof.
  induction d as [|[k x] d IH]; simpl.
  - split; [done|]. by intros (? & ? & ? & [] & _).
  - rewrite !reports_vap, reports_inr, reports_at_loc, IH. split.
    + intros [[[]|(loc' & -> & H)]|(k' & x' & loc' & Hin & -> & H)].
      * exists k, x, loc'. auto.
      * exists k', x', loc'. auto.
    + intros (k' & x' & loc' & [Heq|Hin] & -> & Hr).
      * injection Heq as <- <-. left; right. eauto.
      * right. eauto 6.
Qed.

Lemma proper_validate_values {A} (val : pyval -> vresult A) d :
  (∀ v, proper (val v)) -> proper (validate_values val d).
Proof.
  intros H. induction d as [|[k x] d IH]; simpl; [done|].
  apply proper_vap; [apply proper_vap; [done|by apply proper_at_loc]|apply IH].
Qed.

Lemma reports_validate_str v loc t :
  reports (validate_str v) loc t <-> value_violation T_str v loc t.
Proof.
  split.
  - destruct v; simpl; intros H; try (apply reports_fail in H as [-> ->]; by constructor).
    done.
  - inversion 1 as [v' Hv| | | |]; subst. destruct v; try by apply reports_fail.
    by destruct (Hv s).
Qed.

Lemma reports_validate_optional_str v loc t :
  reports (validate_optional_str v) loc t <-> value_violation T_optional_str v loc t.
Proof.
  split.
  - destruct v; simpl; rewrite ?reports_vap, ?reports_inr; try done;
      intros [[]|H]; try done; apply reports_fail in H as [-> ->]; by constructor.
  - inversion 1 as [|v' Hn Hv| | |]; subst.
    destruct v; simpl; rewrite ?reports_vap; try (right; by apply reports_fail).
    + done.
    + by destruct (Hv s).
Qed.

Lemma reports_validate_ModelType v loc t :
  reports (validate_ModelType v) loc t <-> value_violation T_ModelType v loc t.
Proof.
  split.
  - destruct v; simpl; try (intros H; apply reports_fail in H as [-> ->]; by constructor).
    destruct (String.eqb_spec s "gguf"); [done|].
    destruct (String.eqb_spec s "safetensors"); [done|].
    intros H; apply reports_fail in H as [-> ->]. constructor; congruence.
  - inversion 1 as [| |v' H1 H2| |]; subst. destruct v; simpl; try by apply reports_fail.
    destruct (String.eqb_spec s "gguf"); [congruence|].
    destruct (String.eqb_spec s "safetensors"); [congruence|]. by apply reports_fail.
Qed.

Lemma reports_validate_dict_str_str v loc t :
  reports (validate_dict_str_str v) loc t <-> value_violation T_dict_str_str v loc t.
Proof.
  split.
  - destruct v; simpl; try (intros H; apply reports_fail in H as [-> ->]; by constructor).
    rewrite reports_validate_values. intros (k & x & loc' & Hin & -> & H).
    apply reports_validate_str in H. inversion H; subst. by eapply wrong_dict_value.
  - inversion 1 as [| | |v' Hv|d k x Hin Hx]; subst.
    + destruct v; try by apply reports_fail. by destruct (Hv d).
    + simpl. apply reports_validate_values. exists k, x, [].
      split; [done|]. split; [done|]. apply reports_validate_str. by constructor.
Qed.

Lemma proper_validate_str v : proper (validate_str v).
Proof. by destruct v. Qed.

Lemma proper_validate_optional_str v : proper (validate_optional_str v).
Proof. by destruct v. Qed.

Lemma proper_validate_ModelType v : proper (validate_ModelType v).
Proof. destruct v; try done. simpl. by repeat case_match. Qed.

Lemma proper_validate_dict_str_str v : proper (validate_dict_str_str v).
Proof.
  destruct v; try done. apply proper_validate_values. apply proper_validate_str.
Qed.

Lemma entry_violation_dict fields d loc t :
  entry_violation fields (PyDict d) loc t
  <-> List.Exists (fun f => field_violation f d loc t) fields.
Proof.
  rewrite List.Exists_exists. split.
  - inversion 1 as [v Hv|d' f Hin Hreq Hget|d' f v loc' t' Hin Hget Hv]; subst.
    + by destruct (Hv d).
    + exists f. split; [done|]. by left.
    + exists f. split; [done|]. right. eauto.
  - intros (f & Hin & [(Hreq & Hget & -> & ->)|(v & loc' & Hget & -> & Hv)]).
    + by apply entry_field_missing.
    + by eapply entry_field_wrong.
Qed.

Lemma reports_required_field {A} k ty (val : pyval -> vresult A) d loc t :
  (∀ v loc t, reports (val v) loc t <-> value_violation ty v loc t) ->
  reports (required k val d) loc t
  <-> field_violation {| field_name := k; field_type_of := ty; field_required := true |}
        d loc t.
Proof.
  intros Hval. rewrite reports_required. unfold field_violation. simpl.
  setoid_rewrite Hval. tauto.
Qed.

Lemma reports_default_field {A} k ty dflt (val : pyval -> vresult A) d loc t :
  (∀ v loc t, reports (val v) loc t <-> value_violation ty v loc t) ->
  reports (with_default k dflt val d) loc t
  <-> field_violation {| field_name := k; field_type_of := ty; field_required := false |}
        d loc t.
Proof.
  intros Hval. rewrite reports_with_default. unfold field_violation. simpl.
  setoid_rewrite Hval. intuition congruence.
Qed.

Lemma reports_BaseModelConfig d loc t :
  reports (BaseModelConfig_fields d) loc t
  <-> List.Exists (fun f => field_violation f d loc t) base_fields.
Proof.
  unfold BaseModelConfig_fields, base_fields.
  rewrite !reports_vap, reports_inr, !List.Exists_cons, List.Exists_nil.
  rewrite !(reports_required_field _ _ _ _ _ _ reports_validate_str).
  rewrite (reports_default_field _ _ _ _ _ _ _ reports_validate_dict_str_str).
  tauto.
Qed.

Lemma reports_GGUFModelsConfig d loc t :
  reports (GGUFModelsConfig_fields d) loc t
  <-> entry_violation gguf_fields (PyDict d) loc t.
Proof.
  rewrite entry_violation_dict. unfold GGUFModelsConfig_fields, gguf_fields.
  rewrite !reports_vap, reports_inr, List.Exists_app, !List.Exists_cons, List.Exists_nil.
  rewrite reports_BaseModelConfig.
  rewrite !(reports_required_field _ _ _ _ _ _ reports_validate_str).
  rewrite (reports_default_field _ _ _ _ _ _ _ reports_validate_ModelType).
  rewrite (reports_default_field _ _ _ _ _ _ _ reports_validate_optional_str).
  tauto.
Qed.

Lemma reports_SafetensorsModelsConfig d loc t :
  reports (SafetensorsModelsConfig_fields d) loc t
  <-> entry_violation safetensors_fields (PyDict d) loc t.
Proof.
  rewrite entry_violation_dict. unfold SafetensorsModelsConfig_fields, safetensors_fields.
  rewrite !reports_vap, reports_inr, List.Exists_app, !List.Exists_cons, List.Exists_nil.
  rewrite reports_BaseModelConfig.
  rewrite (reports_default_field _ _ _ _ _ _ _ reports_validate_ModelType).
  tauto.
Qed.

Lemma reports_validate_model {A} fields (val : list (string * pyval) -> vresult A) v loc t :
  (∀ d loc t, reports (val d) loc t <-> entry_violation fields (PyDict d) loc t) ->
  reports (validate_model val v) loc t <-> entry_violation fields v loc t.
Proof.
  intros Hval. destruct v; simpl; try apply Hval;
    (split; [intros H; apply reports_fail in H as [-> ->]; by constructor|]);
    inversion 1; subst; by apply reports_fail.
Qed.

Ltac proper_fields :=
  repeat first
    [ done
    | apply proper_required, proper_validate_str
    | apply proper_with_default, proper_validate_dict_str_str
    | apply proper_with_default, proper_validate_ModelType
    | apply proper_with_default, proper_validate_optional_str
    | apply proper_vap ].

Lemma proper_BaseModelConfig d : proper (BaseModelConfig_fields d).
Proof. unfold BaseModelConfig_fields. proper_fields. Qed.

Lemma proper_GGUFModelsConfig d : proper (GGUFModelsConfig_fields d).
Proof.
  unfold GGUFModelsConfig_fields.
  do 4 (apply proper_vap; [|first [apply proper_BaseModelConfig|proper_fields]]). done.
Qed.

Lemma proper_SafetensorsModelsConfig d : proper (SafetensorsModelsConfig_fields d).
Proof.
  unfold SafetensorsModelsConfig_fields.
  do 2 (apply proper_vap; [|first [apply proper_BaseModelConfig|proper_fields]]). done.
Qed.

Lemma proper_validate_model {A} (val : list (string * pyval) -> vresult A) v :
  (∀ d, proper (val d)) -> proper (validate_model val v).
Proof. intros H. destruct v; try done. apply H. Qed.

Lemma proper_validate_list {A} (val : pyval -> vresult A) v :
  (∀ x, proper (val x)) -> proper (validate_list val v).
Proof. intros H. destruct v; try done. by apply proper_validate_items. Qed.

Lemma proper_ModelsConfig d : proper (ModelsConfig_fields d).
Proof.
  unfold ModelsConfig_fields. repeat apply proper_vap; try done.
  - apply proper_required. intros v. apply proper_validate_list. intros x.
    apply proper_validate_model, proper_GGUFModelsConfig.
  - apply proper_required. intros v. apply proper_validate_list. intros x.
    apply proper_validate_model, proper_SafetensorsModelsConfig.
Qed.

(** What a collection reports: it is no list, or what one of its entries
    reports, at the index of the entry. *)
Lemma reports_validate_list {A} fields (val : pyval -> vresult A) v loc t :
  (∀ e loc t, reports (val e) loc t <-> entry_violation fields e loc t) ->
  reports (validate_list val v) loc t
  <-> ((∀ l, v ≠ PyList l) ∧ loc = [] ∧ t = E_list_type)
      ∨ (∃ l i e loc', v = PyList l ∧ l !! i = Some e ∧ loc = LIdx i :: loc'
                       ∧ entry_violation fields e loc' t).
Proof.
  intros Hval. destruct v; simpl;
    try (rewrite reports_fail; split;
         [intros [-> ->]; by left|intros [(_ & -> & ->)|(? & ? & ? & ? & ? & _)]; done]).
  rewrite reports_validate_items. split.
  - intros (i & e & loc' & Hl & -> & H). right. exists l, i, e, loc'.
    by rewrite <- Hval.
  - intros [(Hn & _)|(l' & i & e & loc' & [= <-] & Hl & -> & H)]; [by destruct (Hn l)|].
    exists i, e, loc'. by rewrite Hval.
Qed.

Lemma reports_collection {A} key fields (val : pyval -> vresult A) d loc t :
  (∀ e loc t, reports (val e) loc t <-> entry_violation fields e loc t) ->
  reports (required key (validate_list val) d) loc t
  <-> (dict_get key d = None ∧ loc = [LKey key] ∧ t = E_missing)
      ∨ (∃ v, dict_get key d = Some v ∧ (∀ l, v ≠ PyList l)
              ∧ loc = [LKey key] ∧ t = E_list_type)
      ∨ (∃ l i e loc', dict_get key d = Some (PyList l) ∧ l !! i = Some e
                       ∧ loc = LKey key :: LIdx i :: loc'
                       ∧ entry_violation fields e loc' t).
Proof.
  intros Hval. rewrite reports_required.
  setoid_rewrite (reports_validate_list fields val _ _ _ Hval). split.
  - intros [?|(v & loc' & Hget & -> & [(Hn & -> & ->)|(l & i & e & loc'' & -> & Hl & -> & H)])].
    + by left.
    + right; left. eauto.
    + right; right. eauto 8.
  - intros [?|[(v & Hget & Hn & -> & ->)|(l & i & e & loc' & Hget & Hl & -> & H)]].
    + by left.
    + right. exists v, []. split; [done|]. split; [done|]. by left.
    + right. exists (PyList l), (LIdx i :: loc'). split; [done|]. split; [done|].
      right. eauto 8.
Qed.

(** The report of [ModelsConfig] names exactly what is wrong, field by
    field, with the manifest. *)
Lemma reports_ModelsConfig d loc t :
  reports (ModelsConfig_fields d) loc t <-> manifest_violation d loc t.
Proof.
  unfold ModelsConfig_fields. rewrite !reports_vap, reports_inr.
  rewrite (reports_collection "ggufs" gguf_fields).
  2:{ intros. apply reports_validate_model. apply reports_GGUFModelsConfig. }
  rewrite (reports_collection "safetensors" safetensors_fields).
  2:{ intros. apply reports_validate_model. apply reports_SafetensorsModelsConfig. }
  split.
  - intros [[[]|H]|H];
      destruct H as [(Hget & -> & ->)|[(v & Hget & Hn & -> & ->)
                                      |(l & i & e & loc' & Hget & Hl & -> & H)]].
    + eapply collection_missing; [|done]. by left.
    + eapply collection_not_list; [|done..]. by left.
    + eapply collection_entry; [|done..]. by left.
    + eapply collection_missing; [|done]. right; by left.
    + eapply collection_not_list; [|done..]. right; by left.
    + eapply collection_entry; [|done..]. right; by left.
  - inversion 1 as [key fields Hin Hget|key fields v Hin Hget Hn
                   |key fields l i e loc' t' Hin Hget Hl He]; subst;
      destruct Hin as [[= <- <-]|[[= <- <-]|[]]].
    + left; right. by left.
    + right. by left.
    + left; right. right; left. eauto.
    + right. right; left. eauto.
    + left; right. right; right. eauto 8.
    + right. right; right. eauto 8.
Qed.

(** ** C7: what a validation report names *)

Lemma not_NoDup_twice (x : string) l : ¬ NoDup (x :: x :: l).
Proof. intros H. apply NoDup_cons in H as [H _]. apply H. by left. Qed.

(** C7, as stated, fails: of the missing description and the duplicate
    name, the report names the first only. *)
Lemma report_omits_duplicate_name :
  duplicate_name flawed_manifest
  ∧ manifest_violation flawed_manifest
      [LKey "ggufs"; LIdx 0; LKey "description"] E_missing
  ∧ ModelsConfig_fields flawed_manifest
    = inl [ {| err_loc := [LKey "ggufs"; LIdx 0; LKey "description"];
               err_type := E_missing |} ].
Proof.
  split; [apply not_NoDup_twice|]. split; [|reflexivity].
  apply reports_ModelsConfig. by left.
Qed.

Lemma load_and_validate_run json_loads path w w1 text d :
  open_rb path w = (Ok text, w1) ->
  json_loads text = Some (PyDict d) ->
  (_load_and_validate_models json_loads path w).1
  = match ModelsConfig_fields d with
    | inr _ => Ok (PyDict d)
    | inl errors => Raise (ValidationError errors)
    end.
Proof.
  intros Hopen Hloads. unfold _load_and_validate_models, bind. rewrite Hopen, Hloads.
  by destruct (ModelsConfig_fields d).
Qed.

(** C7 (amended): the manifest is accepted exactly when no field violates
    its constraint; otherwise [ValidationError] is raised, and its report
    names every violation there is (a missing required field, a value of
    the wrong type, a value outside the enumeration) and nothing else.
    Names are not compared: a duplicate name is no violation. *)
Theorem report_names_every_field_violation json_loads path w w1 text d :
  open_rb path w = (Ok text, w1) ->
  json_loads text = Some (PyDict d) ->
  let run := _load_and_validate_models json_loads path w in
  (run.1 = Ok (PyDict d) <-> ∀ loc t, ¬ manifest_violation d loc t)
  ∧ (∀ loc t, manifest_violation d loc t ->
       ∃ errors, run.1 = Raise (ValidationError errors)
                 ∧ In {| err_loc := loc; err_type := t |} errors)
  ∧ (∀ errors, run.1 = Raise (ValidationError errors) ->
       ∀ e, In e errors -> manifest_violation d (err_loc e) (err_type e)).
Proof.
  intros Hopen Hloads run. subst run.
  rewrite (load_and_validate_run _ _ _ _ _ _ Hopen Hloads).
  pose proof (proper_succeeds _ (proper_ModelsConfig d)) as Hok.
  pose proof (reports_ModelsConfig d) as Hrep.
  split; [|split].
  - split.
    + intros Hrun loc t Hv. apply Hrep in Hv. revert Hv. apply Hok.
      destruct (ModelsConfig_fields d); [done|by eexists].
    + intros Hnone. destruct (proj2 Hok) as [cfg ->]; [|done].
      intros loc t Hr. by apply (Hnone loc t), Hrep.
  - intros loc t Hv. apply Hrep in Hv. unfold reports in Hv.
    destruct (ModelsConfig_fields d) as [errors|cfg]; [eauto|done].
  - intros errors Herr [loc t] Hin. apply Hrep. unfold reports.
    destruct (ModelsConfig_fields d) as [errors'|cfg]; [|done]. by injection Herr as ->.
Qed.

Lemma report_names_every_field_violation_witness :
  let run := _load_and_validate_models loads_fixture "/srv/flawed.json" manifest_world in
  (run.1 = Ok (PyDict flawed_manifest) <-> ∀ loc t, ¬ manifest_violation flawed_manifest loc t)
  ∧ (∀ loc t, manifest_violation flawed_manifest loc t ->
       ∃ errors, run.1 = Raise (ValidationError errors)
                 ∧ In {| err_loc := loc; err_type := t |} errors)
  ∧ (∀ errors, run.1 = Raise (ValidationError errors) ->
       ∀ e, In e errors -> manifest_violation flawed_manifest (err_loc e) (err_type e)).
Proof.
  apply (report_names_every_field_violation loads_fixture "/srv/flawed.json" manifest_world
           (add_event manifest_world (EvOpenRead ["srv"; "flawed.json"])) flawed_text).
  - by vm_compute.
  - by vm_compute.
Defined.

(** ** C3: names that occur twice *)

(** C3, as stated, fails: the three entries of the manifest have one name,
    and the manifest is accepted. *)
Lemma namesakes_are_accepted :
  duplicate_name namesakes_manifest
  ∧ ¬ rejected namesakes_manifest
  ∧ (_load_and_validate_models loads_fixture "/srv/namesakes.json" manifest_world).1
    = Ok (PyDict namesakes_manifest).
Proof.
  split; [apply not_NoDup_twice|]. split; [|by vm_compute].
  intros [report H]. vm_compute in H. discriminate.
Qed.

Lemma validate_items_cons {A} (val : pyval -> vresult A) i x l :
  validate_items val i (x :: l)
  = inr cons <&> at_loc (LIdx i) (val x) <&> validate_items val (S i) l.
Proof. reflexivity. Qed.

Lemma validate_items_inr {A} (val : pyval -> vresult A) i l gs :
  validate_items val i l = inr gs <-> Forall2 (fun e g => val e = inr g) l gs.
Proof.
  revert i gs. induction l as [|x l IH]; intros i gs.
  - simpl. split; [intros [= <-]; constructor|by inversion 1].
  - rewrite validate_items_cons. specialize (IH (S i)).
    destruct (val x) as [ex|g] eqn:Ex, (validate_items val (S i) l) as [el|gl] eqn:El;
      unfold vap; simpl; split; try done.
    + inversion 1; congruence.
    + inversion 1; congruence.
    + inversion 1 as [|? ? ? ? ? Hl]; subst. apply IH in Hl. congruence.
    + intros [= <-]. constructor; [done|]. by apply IH.
    + inversion 1 as [|? g' ? gs' Hg Hl]; subst. apply IH in Hl. congruence.
Qed.

Lemma required_inr {A} k (val : pyval -> vresult A) d a :
  required k val d = inr a <-> ∃ v, dict_get k d = Some v ∧ val v = inr a.
Proof.
  unfold required. destruct (dict_get k d) as [v|]; simpl.
  - destruct (val v) as [es|a'] eqn:E; simpl; split.
    + done.
    + intros (v' & Hv & Ha). injection Hv as <-. congruence.
    + intros [= <-]. eauto.
    + intros (v' & Hv & Ha). injection Hv as <-. congruence.
  - split; [done|]. by intros (? & ? & _).
Qed.

Lemma collection_inr {A} key (val : pyval -> vresult A) d gs :
  required key (validate_list val) d = inr gs
  <-> ∃ l, dict_get key d = Some (PyList l) ∧ Forall2 (fun e g => val e = inr g) l gs.
Proof.
  rewrite required_inr. split.
  - intros (v & Hget & Hv). destruct v; try done. simpl in Hv.
    apply validate_items_inr in Hv. eauto.
  - intros (l & Hget & Hl). exists (PyList l). split; [done|]. by apply validate_items_inr.
Qed.

(** C3 (amended): a manifest is valid exactly when it holds the two
    collections as lists and each entry, taken alone, is a valid entry of
    its class; the validated manifest is the list of the validated entries.
    Nothing compares the names of two entries, so entries sharing a name
    are accepted. *)
Theorem validation_is_entrywise d gs ss :
  ModelsConfig_fields d = inr {| ggufs := gs; safetensors := ss |}
  <-> ∃ gl sl,
        dict_get "ggufs" d = Some (PyList gl)
        ∧ dict_get "safetensors" d = Some (PyList sl)
        ∧ Forall2 (fun e g => validate_model GGUFModelsConfig_fields e = inr g) gl gs
        ∧ Forall2 (fun e s => validate_model SafetensorsModelsConfig_fields e = inr s) sl ss.
Proof.
  unfold ModelsConfig_fields.
  pose proof (collection_inr "ggufs" (validate_model GGUFModelsConfig_fields) d) as Hg.
  pose proof (collection_inr "safetensors"
                (validate_model SafetensorsModelsConfig_fields) d) as Hs.
  destruct (required "ggufs" _ d) as [eg|gs'], (required "safetensors" _ d) as [es|ss'];
    unfold vap; simpl; split; try done.
  - intros (gl & sl & Hgl & Hsl & HG & HS). by assert (inl eg = inr gs) by (apply Hg; eauto).
  - intros (gl & sl & Hgl & Hsl & HG & HS). by assert (inl eg = inr gs) by (apply Hg; eauto).
  - intros (gl & sl & Hgl & Hsl & HG & HS). by assert (inl es = inr ss) by (apply Hs; eauto).
  - intros [= <- <-].
    destruct (proj1 (Hg gs') eq_refl) as (gl & Hgl & HG).
    destruct (proj1 (Hs ss') eq_refl) as (sl & Hsl & HS). eauto 6.
  - intros (gl & sl & Hgl & Hsl & HG & HS).
    assert (inr gs' = inr gs) as [= ->] by (apply Hg; eauto).
    assert (inr ss' = inr ss) as [= ->] by (apply Hs; eauto). done.
Qed.

(** The three namesakes are validated into three entries. *)
Lemma validation_is_entrywise_witness :
  ModelsConfig_fields namesakes_manifest
  = inr {| ggufs := [tiny_first; tiny_second]; safetensors := [tiny_third] |}.
Proof.
  apply (proj2 (validation_is_entrywise namesakes_manifest
                  [tiny_first; tiny_second] [tiny_third])).
  eexists _, _. split; [reflexivity|]. split; [reflexivity|].
  split; repeat constructor.
Defined.

(** ** C6: where the artifacts of an entry go *)

Lemma confined_trans P K w1 w2 w3 :
  confined P K w1 w2 -> confined P K w2 w3 -> confined P K w1 w3.
Proof.
  intros H12 H23.
  apply (transitivity (R := within (cwd w1) P K) (y := w2)); [by intros _| |done].
  intros _. done.
Qed.


Lemma mkdir_from_confined pre rest w :
  confined (mkdir_event (pre ++ rest)) (fun k => k `prefix_of` pre ++ rest)
    w (mkdir_from pre rest w).2.
Proof.
  revert pre w. induction rest as [|x rest IH]; intros pre w; simpl.
  - apply confined_same.
  - assert (pre ++ x :: rest = (pre ++ [x]) ++ rest) as Heq by by rewrite <- app_assoc.
    assert ((pre ++ [x]) `prefix_of` pre ++ x :: rest) as Hpre
      by (rewrite Heq; by apply prefix_app_r).
    destruct (node_at (fs w) (pre ++ [x])) as [[?|]|] eqn:E.
    + apply confined_same.
    + rewrite Heq. apply IH.
    + eapply confined_trans; [|rewrite Heq; apply IH].
      split; [done| |].
      * eexists [_]. split; [done|]. by constructor.
      * intros k Hk. simpl. rewrite lookup_insert_ne; [done|]. by intros <-.
Qed.

Lemma mkdir_from_ok pre rest w w0 :
  node_at (fs w) pre = Some Dir ->
  mkdir_from pre rest w = (Ok tt, w0) ->
  node_at (fs w0) (pre ++ rest) = Some Dir.
Proof.
  revert pre w. induction rest as [|x rest IH]; intros pre w Hpre; simpl.
  - intros [= <-]. by rewrite app_nil_r.
  - assert (pre ++ x :: rest = (pre ++ [x]) ++ rest) as -> by by rewrite <- app_assoc.
    destruct (node_at (fs w) (pre ++ [x])) as [[?|]|] eqn:E.
    + done.
    + by apply IH.
    + apply IH. simpl. destruct (pre ++ [x]) eqn:Ek; [by destruct pre|].
      simpl. by rewrite lookup_insert_eq.
Qed.






Lemma str_split_no_slash s : no_slash s = true -> str_split "/" s = [s].
Proof.
  induction s as [|c s IH]; simpl; [done|].
  intros [Hc Hs]%andb_true_iff. apply negb_true_iff in Hc. rewrite Hc.
  by rewrite (IH Hs).
Qed.

Lemma splitroot_no_slash s : no_slash s = true -> PurePath.splitroot s = ("", s).
Proof.
  destruct s as [|c s]; [done|]. simpl.
  intros [Hc _]%andb_true_iff. apply negb_true_iff in Hc.
  by destruct c as [[] [] [] [] [] [] [] []].
Qed.

Lemma parse_plain s : plain s = true -> Path s = PurePath.mk "" [s].
Proof.
  unfold plain. intros [[Hs He]%andb_true_iff Hd]%andb_true_iff.
  unfold PurePath.parse. rewrite (splitroot_no_slash s Hs), (str_split_no_slash s Hs).
  simpl. unfold PurePath.keep_part. by rewrite He, Hd.
Qed.

Lemma no_slash_app a b : no_slash (a +:+ b) = no_slash a && no_slash b.
Proof.
  induction a as [|c a IH]; [done|]. rewrite str_app_cons. simpl.
  by rewrite IH, andb_assoc.
Qed.

Lemma plain_file prefix name :
  no_slash prefix = true -> no_slash name = true ->
  plain (prefix +:+ name +:+ ".gguf") = true.
Proof.
  intros Hp Hn. unfold plain. rewrite !no_slash_app, Hp, Hn. simpl.
  assert (5 ≤ String.length (prefix +:+ name +:+ ".gguf"))%nat as Hlen
    by (rewrite !str_app_length; change (String.length ".gguf") with 5%nat; lia).
  destruct (String.eqb_spec (prefix +:+ name +:+ ".gguf") "") as [E|_];
    [rewrite E in Hlen; vm_compute in Hlen; lia|].
  destruct (String.eqb_spec (prefix +:+ name +:+ ".gguf") ".") as [E|_];
    [rewrite E in Hlen; vm_compute in Hlen; lia|done].
Qed.

Lemma plain_no_slash s : plain s = true -> no_slash s = true.
Proof. unfold plain. by intros [[? _]%andb_true_iff _]%andb_true_iff. Qed.

Lemma locate_join_relative w a b :
  PurePath.root b = "" -> locate w (a </> b) = locate w a ++ PurePath.parts b.
Proof.
  intros Hb. unfold locate, PurePath.join. rewrite Hb. simpl.
  destruct (PurePath.root a); simpl; by rewrite ?app_assoc.
Qed.

Lemma locate_join_plain w a s :
  plain s = true -> locate w (a </> Path s) = locate w a ++ [s].
Proof. intros Hs. rewrite (parse_plain s Hs). by apply locate_join_relative. Qed.

Lemma locate_family w a t :
  locate w (a </> Path (ModelType_value t)) = locate w a ++ [ModelType_value t].
Proof. apply locate_join_plain. by destruct t. Qed.

(** A local copy into the directory at [k], under the plain name [f]. *)
Lemma fetch_into_directory w p f u ks content :
  plain f = true ->
  node_at (fs w) (locate w p) = Some Dir ->
  fs w !! (locate w p ++ [f]) = None ->
  startswith "file://" u = true ->
  locate_str w (str_remove "file://" u) = Some ks ->
  needs_directory (str_remove "file://" u) = false ->
  node_at (fs w) ks = Some (File content) ->
  (_download_file u (p </> Path f) w).1 = Ok tt
  ∧ fs (_download_file u (p </> Path f) w).2 !! (locate w p ++ [f]) = Some (File content).
Proof.
  intros Hf Hdir Hnone Hu Hks Hnd Hsrc.
  rewrite <- (locate_join_plain w p f Hf) in *.
  apply (download_file_local_ok u _ w ks content); try done.
  - unfold exists_at. rewrite (locate_join_plain w p f Hf) in *.
    destruct (locate w p ++ [f]) eqn:E; [by destruct (locate w p)|].
    simpl. rewrite Hnone. by intros [? ?].
  - rewrite (locate_join_plain w p f Hf). by rewrite removelast_last.
Qed.

Lemma locate_str_cwd w w' s : cwd w' = cwd w -> locate_str w' s = locate_str w s.
Proof. intros Hc. unfold locate_str, locate. by rewrite Hc. Qed.

Lemma locate_same_cwd w w' p : cwd w' = cwd w -> locate w' p = locate w p.
Proof. intros Hc. unfold locate. by rewrite Hc. Qed.

Lemma node_at_preserved w w' k content :
  preserves w w' -> node_at (fs w) k = Some (File content) ->
  node_at (fs w') k = Some (File content).
Proof. intros [_ _ Hf]. destruct k; [done|]. simpl. apply Hf. Qed.

Lemma dir_preserved w w' k :
  preserves w w' -> node_at (fs w) k = Some Dir -> node_at (fs w') k = Some Dir.
Proof. intros [_ _ Hf]. destruct k; [done|]. simpl. apply Hf. Qed.

Lemma not_prefix_snoc (k : list string) x : ¬ (k ++ [x]) `prefix_of` k.
Proof. intros H%prefix_length. rewrite length_app in H. simpl in H. lia. Qed.

Lemma entry_directory_located w (g : GGUFModelsConfig) :
  plain (name g) = true ->
  locate w (entry_directory (models_root w) g)
  = locate w (models_root w) ++ [ModelType_value (gguf_model_type g); name g].
Proof.
  intros Hn. unfold entry_directory.
  rewrite (locate_join_plain _ _ _ Hn), locate_family. by rewrite <- app_assoc.
Qed.

(** The world once the directory of the entry is made. *)
Lemma after_mkdir w p w0 :
  mkdir_parents_exist_ok p w = (Ok tt, w0) ->
  preserves w w0
  ∧ node_at (fs w0) (locate w p) = Some Dir
  ∧ (∀ k, ¬ k `prefix_of` locate w p -> fs w0 !! k = fs w !! k).
Proof.
  intros Hmk. split; [|split].
  - pose proof (steps_preserves_mkdir p w) as H. by rewrite Hmk in H.
  - by apply (mkdir_from_ok [] (locate w p) w w0).
  - pose proof (mkdir_from_confined [] (locate w p) w) as [_ _ H].
    unfold mkdir_parents_exist_ok in Hmk. by rewrite Hmk in H.
Qed.

(** The artifacts of a quantized entry with a plain name and local
    sources land in [<root>/<family-tag>/<name>], the primary one as
    [<name>.gguf] and the projector as [mmproj_<name>.gguf]. *)
Lemma entry_files_land w (g : GGUFModelsConfig) ks content :
  plain (name g) = true ->
  startswith "file://" (url g) = true ->
  locate_str w (str_remove "file://" (url g)) = Some ks ->
  needs_directory (str_remove "file://" (url g)) = false ->
  node_at (fs w) ks = Some (File content) ->
  let dk := locate w (models_root w) ++ [ModelType_value (gguf_model_type g); name g] in
  fs w !! (dk ++ [name g +:+ ".gguf"]) = None ->
  (mkdir_parents_exist_ok (entry_directory (models_root w) g) w).1 = Ok tt ->
  fs (download_model_files (OfGGUF g) w).2 !! (dk ++ [name g +:+ ".gguf"])
    = Some (File content)
  ∧ (∀ a s ks' content',
       mmproj g = Some (String a s) ->
       startswith "file://" (String a s) = true ->
       locate_str w (str_remove "file://" (String a s)) = Some ks' ->
       needs_directory (str_remove "file://" (String a s)) = false ->
       node_at (fs w) ks' = Some (File content') ->
       fs w !! (dk ++ ["mmproj_" +:+ name g +:+ ".gguf"]) = None ->
       (download_model_files (OfGGUF g) w).1 = Ok tt
       ∧ fs (download_model_files (OfGGUF g) w).2
           !! (dk ++ ["mmproj_" +:+ name g +:+ ".gguf"]) = Some (File content')).
Proof.
  intros Hn Hu Hks Hnd Hsrc dk Hnone Hmk.
  pose proof (plain_no_slash _ Hn) as Hns.
  pose proof (plain_file "" (name g) eq_refl Hns) as Hpf. rewrite str_app_nil_l in Hpf.
  pose proof (plain_file "mmproj_" (name g) eq_refl Hns) as Hpa.
  pose proof (entry_directory_located w g Hn) as Hdk. fold dk in Hdk.
  destruct (mkdir_parents_exist_ok _ w) as [[[]|e] w0] eqn:Emk; simpl in Hmk; [|done].
  destruct (after_mkdir _ _ _ Emk) as (Hp0 & Hdir0 & Hfs0). rewrite Hdk in Hdir0, Hfs0.
  assert (cwd w0 = cwd w) as Hc0 by (by destruct Hp0 as [[? _] _ _]).
  rewrite (download_gguf_run g w w0 Emk). unfold primary_destination, projector_destination.
  destruct (fetch_into_directory w0 (entry_directory (models_root w) g)
              (name g +:+ ".gguf") (url g) ks content) as [Hr1 Hf1]; try done.
  { by rewrite (locate_same_cwd w w0), Hdk. }
  { rewrite (locate_same_cwd w w0), Hdk by done.
    rewrite Hfs0; [done|apply not_prefix_snoc]. }
  { by rewrite (locate_str_cwd w w0). }
  { by apply (node_at_preserved w w0). }
  rewrite (locate_same_cwd w w0), Hdk in Hf1 by done.
  pose proof (steps_preserves_download_file (url g)
                (entry_directory (models_root w) g </> Path (name g +:+ ".gguf")) w0) as Hp1.
  pose proof (steps_download_file (cwd w0) (url g)
                (entry_directory (models_root w) g </> Path (name g +:+ ".gguf"))
                w0 eq_refl) as [_ _ Hfs1].
  cbv zeta in Hfs1.
  rewrite <- locate_cwd, (locate_join_plain w0 _ _ Hpf) in Hfs1.
  rewrite (locate_same_cwd w w0), Hdk in Hfs1 by done.
  destruct (_download_file (url g) _ w0) as [r1 w1]. simpl in *. subst r1.
  assert (cwd w1 = cwd w) as Hc1 by (destruct Hp1 as [[? _] _ _]; congruence).
  split.
  - destruct (mmproj g) as [[|a s]|]; try done.
    by apply (steps_preserves_download_file (String a s) _ w1).
  - intros a s ks' content' Hm Hu' Hks' Hnd' Hsrc' Hnone'. rewrite Hm.
    destruct (fetch_into_directory w1 (entry_directory (models_root w) g)
                ("mmproj_" +:+ name g +:+ ".gguf") (String a s) ks' content')
      as [Hr2 Hf2]; try done.
    + rewrite (locate_same_cwd w w1), Hdk by done. by apply (dir_preserved w0 w1).
    + rewrite (locate_same_cwd w w1), Hdk by done.
      rewrite Hfs1, Hfs0; [done|apply not_prefix_snoc|].
      intros [= E]%(inj (app dk)). apply (f_equal String.length) in E.
      rewrite !str_app_length in E. vm_compute in E. lia.
    + by rewrite (locate_str_cwd w w1).
    + apply (node_at_preserved w0 w1); [done|]. by apply (node_at_preserved w w0).
    + by rewrite (locate_same_cwd w w1), Hdk in Hf2.
Qed.


(** ** Remote transfers, complete or cut short *)

Lemma transfer_remote_run u destination w r :
  startswith "file://" u = false ->
  net w u = Serves r ->
  (400 <=? status_code r)%Z && (status_code r <? 600)%Z = false ->
  headers_content_length r ≠ CL_malformed ->
  ¬ exists_at w destination ->
  node_at (fs w) (removelast (locate w destination)) = Some Dir ->
  (transfer u destination w).1
    = (if stream_breaks r then Raise ChunkedEncodingError else Ok tt)
  ∧ cwd (transfer u destination w).2 = cwd w
  ∧ fs (transfer u destination w).2 !! locate w destination
    = Some (File (join_chunks (iter_content r))).
Proof.
  intros Hu Hnet Hst Hcl Hd Hp.
  set (w1 := add_event w (EvGet u)).
  set (w2 := set_fs (add_event w1 (EvOpenWrite (locate w1 destination)))
               (<[locate w1 destination := File ""]> (fs w1))).
  assert (¬ exists_at w1 destination) as Hd1 by done.
  assert (fs w2 !! locate w2 destination = Some (File "")) as H2
    by (subst w2; simpl; change (locate w1 destination) with (locate w destination);
        by rewrite lookup_insert_eq).
  assert (∃ body, appends destination body
                  ∧ transfer u destination w = for_iter_content r body w2)
    as (body & Hbody & ->).
  { unfold transfer. rewrite Hu. unfold download_remote, bind at 1, requests_get.
    rewrite Hnet. fold w1. unfold bind at 1, raise_for_status. rewrite Hst.
    unfold ret at 1. unfold bind at 1, int_content_length.
    destruct (headers_content_length r) as [|n|] eqn:Ecl; [| |done].
    - unfold ret at 1. unfold bind at 1. rewrite (open_wb_creates destination w1 Hd1 Hp).
      fold w2. simpl. eexists. split; [|reflexivity].
      apply appends_nonempty, appends_write.
    - unfold ret at 1. unfold bind at 1. rewrite (open_wb_creates destination w1 Hd1 Hp).
      fold w2. destruct (0 <? n)%Z; eexists; (split; [|reflexivity]).
      + intros [|a s] w0 old Hold; [by rewrite str_app_nil_r|].
        by apply appends_write_progress.
      + apply appends_nonempty, appends_write. }
  change (locate w destination) with (locate w2 destination).
  change (cwd w) with (cwd w2).
  unfold for_iter_content, bind.
  destruct (for_each_appends destination body (iter_content r) w2 "" Hbody H2)
    as (Hr & Hc & Hf).
  destruct (for_each (iter_content r) body w2) as [res w3]. simpl in *. subst res.
  by destruct (stream_breaks r).
Qed.

(** X1: a remote fetch, whether the stream ends or breaks, returns with
    the chunks received so far in the destination; the next fetch finds the
    file and does nothing, so a file cut short stays as it is. *)
Lemma remote_fetch_keeps_what_arrived u destination w r :
  startswith "file://" u = false ->
  net w u = Serves r ->
  (400 <=? status_code r)%Z && (status_code r <? 600)%Z = false ->
  headers_content_length r ≠ CL_malformed ->
  ¬ exists_at w destination ->
  node_at (fs w) (removelast (locate w destination)) = Some Dir ->
  (_download_file u destination w).1 = Ok tt
  ∧ fs (_download_file u destination w).2 !! locate w destination
    = Some (File (join_chunks (iter_content r)))
  ∧ second_fetch_is_idle u destination w.
Proof.
  intros Hu Hnet Hst Hcl Hd Hp.
  destruct (transfer_remote_run u destination w r) as (Hr & Hc & Hf); try done.
  assert ((_download_file u destination w).1 = Ok tt
          ∧ cwd (_download_file u destination w).2 = cwd w
          ∧ fs (_download_file u destination w).2 = fs (transfer u destination w).2)
    as (Hr' & Hc' & Hf').
  { rewrite download_file_absent by done. unfold try_except.
    destruct (transfer u destination w) as [res w1]. simpl in *. subst res.
    by destruct (stream_breaks r). }
  rewrite Hf'. split; [done|]. split; [done|].
  assert (exists_at (_download_file u destination w).2 destination) as Hex.
  { unfold exists_at. rewrite locate_cwd, Hc', <- locate_cwd, Hf'.
    destruct (locate w destination); [by eexists|]. simpl. rewrite Hf. by eexists. }
  unfold second_fetch_is_idle. cbv zeta.
  rewrite (download_file_present u destination _ Hex). simpl.
  by rewrite events_since_add.
Qed.

Lemma remote_fetch_keeps_what_arrived_witness :
  (_download_file "https://models.example/tiny.gguf" (Path "/srv/tiny.gguf") flaky_world).1
    = Ok tt
  ∧ fs (_download_file "https://models.example/tiny.gguf" (Path "/srv/tiny.gguf")
          flaky_world).2 !! ["srv"; "tiny.gguf"] = Some (File "GGUF-tiny")
  ∧ second_fetch_is_idle "https://models.example/tiny.gguf" (Path "/srv/tiny.gguf")
      flaky_world.
Proof.
  apply (remote_fetch_keeps_what_arrived "https://models.example/tiny.gguf"
           (Path "/srv/tiny.gguf") flaky_world
           {| status_code := 200; headers_content_length := CL_int 24;
              iter_content := ["GGUF-"; "tiny"]; stream_breaks := true |}).
  - reflexivity.
  - reflexivity.
  - reflexivity.
  - discriminate.
  - vm_compute. intros [x H]. discriminate.
  - vm_compute. reflexivity.
Defined.

(** ** C6: the layout of the specification *)







(** ** Validation comes before any download *)

Lemma open_rb_ok s w content w1 :
  open_rb s w = (Ok content, w1) ->
  ∃ k, locate_str w s = Some k
       ∧ node_at (fs w) k = Some (File content)
       ∧ needs_directory s = false
       ∧ w1 = add_event w (EvOpenRead k).
Proof.
  unfold open_rb. destruct (locate_str w s) as [k|]; [|done].
  destruct (node_at (fs w) k) as [[c|]|] eqn:Ek; try done.
  destruct (needs_directory s); [done|]. intros [= <- <-]. by exists k.
Qed.

(** X2: a manifest that fails validation ends the command with the
    [ValidationError], after the manifest was read and the failure logged:
    no directory is made and nothing is fetched. *)
Lemma invalid_manifest_stops_the_command json_loads models_file models_dir overwrite
    w w1 text d errors :
  open_rb (os_path_join (cwd w) models_file) w = (Ok text, w1) ->
  json_loads text = Some (PyDict d) ->
  ModelsConfig_fields d = inl errors ->
  download_models json_loads models_file models_dir overwrite w
  = (Raise (ValidationError errors), add_event w1 (EvLog "Config failed serialization."))
  ∧ fs w1 = fs w
  ∧ events_since w w1 = [EvOpenRead (locate w (Path (os_path_join (cwd w) models_file)))].
Proof.
  intros Hopen Hloads Hval. split; [|split].
  - unfold download_models, bind at 1, os_getcwd.
    unfold bind at 1, _load_and_validate_models, bind at 1.
    rewrite Hopen, Hloads, Hval. reflexivity.
  - by destruct (open_rb_ok _ _ _ _ Hopen) as (k & _ & _ & _ & ->).
  - destruct (open_rb_ok _ _ _ _ Hopen) as (k & Hk & _ & _ & ->).
    unfold locate_str in Hk.
    destruct (os_path_join (cwd w) models_file) as [|a p] eqn:E; [done|].
    injection Hk as <-. apply events_since_add.
Qed.

Lemma invalid_manifest_stops_the_command_witness :
  download_models loads_fixture "flawed.json" "models" false manifest_world
  = (Raise (ValidationError
              [ {| err_loc := [LKey "ggufs"; LIdx 0; LKey "description"];
                   err_type := E_missing |} ]),
     add_event (add_event manifest_world (EvOpenRead ["srv"; "flawed.json"]))
       (EvLog "Config failed serialization.")).
Proof.
  apply (invalid_manifest_stops_the_command loads_fixture "flawed.json" "models" false
           manifest_world (add_event manifest_world (EvOpenRead ["srv"; "flawed.json"]))
           flawed_text flawed_manifest).
  - vm_compute. reflexivity.
  - vm_compute. reflexivity.
  - reflexivity.
Defined.

(** ** Fetches that end before the destination is opened *)

Lemma download_file_of_transfer u destination w res w1 :
  ¬ exists_at w destination ->
  transfer u destination w = (res, w1) ->
  _download_file u destination w
  = match res with
    | Ok a => (Ok a, w1)
    | Raise e =>
        if is_RequestException e
        then (Ok tt, add_event w1 (EvPrint "Error downloading the file:"))
        else (Raise e, w1)
    end.
Proof.
  intros Hd Ht. rewrite download_file_absent by done. unfold try_except. rewrite Ht.
  destruct res as [[]|e]; [done|]. by destruct (is_RequestException e).
Qed.

(** X3: a remote fetch whose server cannot be reached, or answers with a
    failure status (400 to 599), is over before the destination is opened:
    the failure is printed, the fetcher returns, the file system is as it
    was and nothing is at the destination. *)
Lemma failed_request_leaves_no_file u destination w :
  startswith "file://" u = false ->
  ¬ exists_at w destination ->
  net w u = Unreachable
  ∨ (∃ r, net w u = Serves r
          ∧ (400 <=? status_code r)%Z && (status_code r <? 600)%Z = true) ->
  _download_file u destination w
  = (Ok tt, add_event (add_event w (EvGet u)) (EvPrint "Error downloading the file:"))
  ∧ fs (_download_file u destination w).2 = fs w
  ∧ ¬ exists_at (_download_file u destination w).2 destination.
Proof.
  intros Hu Hd Hnet.
  assert (∃ e, is_RequestException e = true
               ∧ transfer u destination w = (Raise e, add_event w (EvGet u)))
    as (e & He & Ht).
  { unfold transfer. rewrite Hu. unfold download_remote, bind at 1, requests_get.
    destruct Hnet as [->|(r & -> & Hst)].
    - by exists ConnectionError.
    - exists HTTPError. split; [done|]. unfold bind at 1, raise_for_status. by rewrite Hst. }
  rewrite (download_file_of_transfer _ _ _ _ _ Hd Ht), He. by repeat split.
Qed.

Lemma failed_request_leaves_no_file_witness :
  _download_file "https://models.example/tiny.gguf" (Path "/srv/tiny.gguf") unavailable_world
  = (Ok tt, add_event (add_event unavailable_world (EvGet "https://models.example/tiny.gguf"))
              (EvPrint "Error downloading the file:"))
  ∧ fs (_download_file "https://models.example/tiny.gguf" (Path "/srv/tiny.gguf")
          unavailable_world).2 = fs unavailable_world
  ∧ ¬ exists_at (_download_file "https://models.example/tiny.gguf" (Path "/srv/tiny.gguf")
                   unavailable_world).2 (Path "/srv/tiny.gguf").
Proof.
  apply (failed_request_leaves_no_file "https://models.example/tiny.gguf"
           (Path "/srv/tiny.gguf") unavailable_world).
  - reflexivity.
  - vm_compute. intros [x H]. discriminate.
  - right. eexists. split; reflexivity.
Defined.

(** X4: a content length that is no integer makes [int] raise
    [ValueError] inside the [try] statement, which only catches the errors
    of the HTTP client: the exception leaves the fetcher, and nothing was
    created. *)
Lemma malformed_content_length_raises u destination w r :
  startswith "file://" u = false ->
  ¬ exists_at w destination ->
  net w u = Serves r ->
  (400 <=? status_code r)%Z && (status_code r <? 600)%Z = false ->
  headers_content_length r = CL_malformed ->
  _download_file u destination w = (Raise ValueError, add_event w (EvGet u)).
Proof.
  intros Hu Hd Hnet Hst Hcl.
  rewrite (download_file_of_transfer u destination w (Raise ValueError)
             (add_event w (EvGet u)) Hd); [done|].
  unfold transfer. rewrite Hu. unfold download_remote, bind at 1, requests_get.
  rewrite Hnet. unfold bind at 1, raise_for_status. rewrite Hst.
  unfold ret at 1. unfold bind at 1, int_content_length. by rewrite Hcl.
Qed.

(** X5: a [file://] locator that names a directory gets as far as opening
    it: [IsADirectoryError] leaves the fetcher and the destination is not
    created. *)
Lemma directory_source_raises u destination w ks :
  startswith "file://" u = true ->
  ¬ exists_at w destination ->
  locate_str w (str_remove "file://" u) = Some ks ->
  node_at (fs w) ks = Some Dir ->
  _download_file u destination w = (Raise IsADirectoryError, add_event w (EvOpenRead ks)).
Proof.
  intros Hu Hd Hks Hdir.
  rewrite (download_file_of_transfer u destination w (Raise IsADirectoryError)
             (add_event w (EvOpenRead ks)) Hd); [done|].
  unfold transfer. rewrite Hu. unfold download_local. cbv zeta.
  set (lp := str_remove "file://" u) in *.
  unfold bind, os_path_exists, os_path_getsize, open_rb. cbv beta.
  rewrite Hks. change (Some ks ≫= node_at (fs w)) with (node_at (fs w) ks).
  rewrite Hdir. cbv beta iota. rewrite Hks, Hdir.
  unfold ret. cbv beta iota. by rewrite Hks, Hdir.
Qed.

Lemma malformed_content_length_raises_witness :
  _download_file "https://models.example/tiny.gguf" (Path "/srv/tiny.gguf") garbled_world
  = (Raise ValueError, add_event garbled_world (EvGet "https://models.example/tiny.gguf")).
Proof.
  apply (malformed_content_length_raises "https://models.example/tiny.gguf"
           (Path "/srv/tiny.gguf") garbled_world
           {| status_code := 200; headers_content_length := CL_malformed;
              iter_content := ["GGUF-tiny-weights"]; stream_breaks := false |}).
  - reflexivity.
  - vm_compute. intros [x H]. discriminate.
  - reflexivity.
  - reflexivity.
  - reflexivity.
Defined.

Lemma directory_source_raises_witness :
  _download_file "file:///srv/fixtures" (Path "/srv/tiny.gguf") offline_world
  = (Raise IsADirectoryError, add_event offline_world (EvOpenRead ["srv"; "fixtures"])).
Proof.
  apply (directory_source_raises "file:///srv/fixtures" (Path "/srv/tiny.gguf")
           offline_world ["srv"; "fixtures"]).
  - reflexivity.
  - vm_compute. intros [x H]. discriminate.
  - vm_compute. reflexivity.
  - vm_compute. reflexivity.
Defined.

(** ** The path of a [file://] locator *)

Lemma prefix_app_self (a s : string) : String.prefix a (a +:+ s) = true.
Proof.
  induction a as [|c a IH]; [by destruct s|]. rewrite str_app_cons. simpl.
  by destruct (ascii_dec c c).
Qed.

Lemma prefix_split (a s : string) : String.prefix a s = true -> ∃ p, s = a +:+ p.
Proof.
  revert s. induction a as [|c a IH]; intros s; [by exists s|].
  destruct s as [|c' s]; [done|]. simpl.
  destruct (ascii_dec c c') as [<-|]; [|done]. intros [p ->]%IH. by exists p.
Qed.

Lemma str_remove_go_skip old (a s : string) :
  str_remove_go old (String.length a) (a +:+ s) = str_remove_go old 0 s.
Proof.
  induction a as [|c a IH]; [done|]. rewrite str_app_cons. simpl. exact IH.
Qed.

Lemma str_remove_go_absent old s :
  contains old s = false -> str_remove_go old 0 s = s.
Proof.
  induction s as [|c s IH]; [done|].
  intros [Hp Hc]%orb_false_iff.
  change (str_remove_go old 0 (String c s))
    with (if String.prefix old (String c s)
          then str_remove_go old (String.length old - 1) s
          else String c (str_remove_go old 0 s)).
  rewrite Hp. by rewrite (IH Hc).
Qed.

Lemma str_remove_leading (old p : string) :
  old ≠ "" -> str_remove old (old +:+ p) = str_remove old p.
Proof.
  destruct old as [|c o]; [done|]. intros _. unfold str_remove.
  rewrite str_app_cons.
  change (str_remove_go (String c o) 0 (String c (o +:+ p)))
    with (if String.prefix (String c o) (String c (o +:+ p))
          then str_remove_go (String c o) (String.length (String c o) - 1) (o +:+ p)
          else String c (str_remove_go (String c o) 0 (o +:+ p))).
  rewrite <- str_app_cons, prefix_app_self.
  replace (String.length (String c o) - 1) with (String.length o) by (simpl; lia).
  apply str_remove_go_skip.
Qed.

(** X6: a locator [file://<p>] is read as the local path [<p>] when
    [file://] does not occur in [<p>] again, and the file there is copied to
    the destination, provided [<p>] does not end in a slash or a dot
    component, which only a directory answers to; any further [file://]
    inside the locator is deleted from the path as well. *)
Lemma file_locator_names_its_path p :
  str_remove "file://" ("file://" +:+ p) = str_remove "file://" p
  ∧ (contains "file://" p = false ->
     str_remove "file://" ("file://" +:+ p) = p
     ∧ ∀ destination w ks content,
         locate_str w p = Some ks ->
         needs_directory p = false ->
         node_at (fs w) ks = Some (File content) ->
         ¬ exists_at w destination ->
         node_at (fs w) (removelast (locate w destination)) = Some Dir ->
         (_download_file ("file://" +:+ p) destination w).1 = Ok tt
         ∧ fs (_download_file ("file://" +:+ p) destination w).2 !! locate w destination
           = Some (File content)).
Proof.
  assert (str_remove "file://" ("file://" +:+ p) = str_remove "file://" p) as Hlead
    by by apply str_remove_leading.
  split; [done|]. intros Hc.
  assert (str_remove "file://" ("file://" +:+ p) = p) as Hp.
  { rewrite Hlead. unfold str_remove. by apply str_remove_go_absent. }
  split; [done|]. intros destination w ks content Hks Hnd Hsrc Hd Hdir.
  apply (download_file_local_ok _ destination w ks content); try done.
  - apply prefix_app_self.
  - by rewrite Hp.
  - by rewrite Hp.
Qed.

Lemma file_locator_names_its_path_witness :
  str_remove "file://" ("file://" +:+ "/srv/fixtures/tiny.gguf") = "/srv/fixtures/tiny.gguf"
  ∧ ∀ destination w ks content,
      locate_str w "/srv/fixtures/tiny.gguf" = Some ks ->
      needs_directory "/srv/fixtures/tiny.gguf" = false ->
      node_at (fs w) ks = Some (File content) ->
      ¬ exists_at w destination ->
      node_at (fs w) (removelast (locate w destination)) = Some Dir ->
      (_download_file ("file://" +:+ "/srv/fixtures/tiny.gguf") destination w).1 = Ok tt
      ∧ fs (_download_file ("file://" +:+ "/srv/fixtures/tiny.gguf") destination w).2
          !! locate w destination = Some (File content).
Proof.
  apply (proj2 (file_locator_names_its_path "/srv/fixtures/tiny.gguf")). reflexivity.
Defined.

(** ** Entries that are already in place *)

Lemma mkdir_from_present pre rest w :
  (∀ k, k `prefix_of` pre ++ rest -> node_at (fs w) k = Some Dir) ->
  mkdir_from pre rest w = (Ok tt, w).
Proof.
  revert pre. induction rest as [|x rest IH]; intros pre Hall; simpl; [done|].
  assert (pre ++ x :: rest = (pre ++ [x]) ++ rest) as Heq by by rewrite <- app_assoc.
  rewrite (Hall (pre ++ [x])) by (rewrite Heq; by apply prefix_app_r).
  apply IH. by rewrite <- Heq.
Qed.

Lemma entry_in_place_run w (g : GGUFModelsConfig) :
  (∀ k, k `prefix_of` locate w (entry_directory (models_root w) g) ->
        node_at (fs w) k = Some Dir) ->
  exists_at w (primary_destination (models_root w) g) ->
  (match mmproj g with
   | Some (String _ _) => exists_at w (projector_destination (models_root w) g)
   | _ => True
   end) ->
  (download_model_files (OfGGUF g) w).1 = Ok tt
  ∧ fs (download_model_files (OfGGUF g) w).2 = fs w
  ∧ Forall (eq (EvLog "File already exists, skipping download."))
      (events_since w (download_model_files (OfGGUF g) w).2).
Proof.
  intros Hdirs Hprimary Hprojector.
  assert (mkdir_parents_exist_ok (entry_directory (models_root w) g) w = (Ok tt, w)) as Hmk
    by by apply mkdir_from_present.
  rewrite (download_gguf_run g w w Hmk), (download_file_present _ _ _ Hprimary).
  set (skip := EvLog "File already exists, skipping download.").
  destruct (mmproj g) as [[|a s]|].
  - simpl. rewrite events_since_add. by repeat constructor.
  - assert (exists_at (add_event w skip) (projector_destination (models_root w) g))
      as Hex by done.
    rewrite (download_file_present _ _ _ Hex). simpl. split; [done|]. split; [done|].
    unfold events_since. simpl. rewrite <- app_assoc, drop_app_length.
    by repeat constructor.
  - simpl. rewrite events_since_add. by repeat constructor.
Qed.

(** X7: when the directory of a quantized entry is there (with the
    directories above it) and so are its artifacts, [download_model_files]
    only logs that it skips them: it returns, and the file system is
    untouched. *)
Lemma entry_in_place_is_skipped w (g : GGUFModelsConfig) :
  (∀ k, k `prefix_of` locate w (entry_directory (models_root w) g) ->
        node_at (fs w) k = Some Dir) ->
  exists_at w (primary_destination (models_root w) g) ->
  (match mmproj g with
   | Some (String _ _) => exists_at w (projector_destination (models_root w) g)
   | _ => True
   end) ->
  (download_model_files (OfGGUF g) w).1 = Ok tt
  ∧ fs (download_model_files (OfGGUF g) w).2 = fs w
  ∧ Forall (eq (EvLog "File already exists, skipping download."))
      (events_since w (download_model_files (OfGGUF g) w).2).
Proof. apply entry_in_place_run. Qed.

Lemma prefix_of_cons_cases (x : string) k l (P : list string -> Prop) :
  P [] -> (∀ k', k' `prefix_of` l -> P (x :: k')) -> k `prefix_of` x :: l -> P k.
Proof.
  intros Hnil Hcons Hk. destruct k as [|y k]; [done|].
  pose proof (prefix_cons_inv_1 _ _ _ _ Hk) as ->.
  apply Hcons. by apply prefix_cons_inv_2 in Hk.
Qed.

Lemma entry_in_place_is_skipped_witness :
  (download_model_files (OfGGUF local_with_projector) settled_world).1 = Ok tt
  ∧ fs (download_model_files (OfGGUF local_with_projector) settled_world).2
    = fs settled_world
  ∧ Forall (eq (EvLog "File already exists, skipping download."))
      (events_since settled_world
         (download_model_files (OfGGUF local_with_projector) settled_world).2).
Proof.
  apply (entry_in_place_is_skipped settled_world local_with_projector).
  - change (locate settled_world
              (entry_directory (models_root settled_world) local_with_projector))
      with ["srv"; "models"; "gguf"; "tiny"].
    do 4 (let k := fresh "k" in let Hk := fresh "Hk" in
          intros k Hk; pattern k;
          match goal with
          | |- ?P k => revert Hk; apply (prefix_of_cons_cases _ k _ P);
                       [by vm_compute|clear k]
          end).
    intros k ->%prefix_nil_inv. by vm_compute.
  - vm_compute. by eexists.
  - vm_compute. by eexists.
Defined.

(** ** Names that start at the root *)

Lemma parse_rooted s : startswith "/" s = true -> PurePath.root (Path s) ≠ "".
Proof.
  intros [p ->]%prefix_split. unfold PurePath.parse.
  change ("/" +:+ p) with (String "/" p).
  destruct p as [|c1 p]; [done|].
  destruct (ascii_dec c1 "/") as [->|Hc1].
  - destruct p as [|c2 p]; [done|].
    destruct (ascii_dec c2 "/") as [->|Hc2]; [done|].
    by destruct c2 as [[] [] [] [] [] [] [] []].
  - by destruct c1 as [[] [] [] [] [] [] [] []].
Qed.

Lemma join_rooted a b : PurePath.root b ≠ "" -> a </> b = b.
Proof. unfold PurePath.join. by destruct (PurePath.root b). Qed.

Lemma rooted_entry_run w (g : GGUFModelsConfig) :
  startswith "/" (name g) = true ->
  entry_directory (models_root w) g = Path (name g)
  ∧ primary_destination (models_root w) g = Path (name g +:+ ".gguf")
  ∧ download_model_files (OfGGUF g) w
    = (mkdir_parents_exist_ok (Path (name g)) ;;
       _download_file (url g) (Path (name g +:+ ".gguf")) ;;
       match mmproj g with
       | Some (String _ _ as projector) =>
           _download_file projector
             (Path (name g) </> Path ("mmproj_" +:+ name g +:+ ".gguf"))
       | _ => ret tt
       end)%cmd w.
Proof.
  intros Hn.
  assert (entry_directory (models_root w) g = Path (name g)) as Hdir
    by (unfold entry_directory; by apply join_rooted, parse_rooted).
  assert (primary_destination (models_root w) g = Path (name g +:+ ".gguf")) as Hprim.
  { unfold primary_destination. apply join_rooted, parse_rooted.
    destruct (prefix_split _ _ Hn) as [p ->]. rewrite str_app_assoc.
    apply prefix_app_self. }
  split; [done|]. split; [done|].
  unfold download_model_files. unfold bind at 1. rewrite get_models_directory_run.
  fold (entry_directory (models_root w) g).
  fold (primary_destination (models_root w) g). by rewrite Hprim, Hdir.
Qed.

(** X8: a name that starts with a slash takes the entry out of the models
    root, whatever [MODELS_DIR] is: the directory made is the name itself
    and, for an entry without projector whose source is a local file, the
    artifact is copied to [<name>.gguf] and the run returns. *)
Lemma rooted_name_leaves_models_root w (g : GGUFModelsConfig) w0 ks content :
  startswith "/" (name g) = true ->
  truthy (mmproj g) = false ->
  mkdir_parents_exist_ok (Path (name g)) w = (Ok tt, w0) ->
  ¬ exists_at w0 (Path (name g +:+ ".gguf")) ->
  node_at (fs w0) (removelast (PurePath.parts (Path (name g +:+ ".gguf")))) = Some Dir ->
  startswith "file://" (url g) = true ->
  locate_str w0 (str_remove "file://" (url g)) = Some ks ->
  needs_directory (str_remove "file://" (url g)) = false ->
  node_at (fs w0) ks = Some (File content) ->
  (download_model_files (OfGGUF g) w).1 = Ok tt
  ∧ fs (download_model_files (OfGGUF g) w).2 !! PurePath.parts (Path (name g +:+ ".gguf"))
    = Some (File content)
  ∧ node_at (fs (download_model_files (OfGGUF g) w).2) (PurePath.parts (Path (name g)))
    = Some Dir.
Proof.
  intros Hn Hm Hmk Hd Hp Hu Hks Hnd Hsrc.
  assert (download_model_files (OfGGUF g) w
          = _download_file (url g) (Path (name g +:+ ".gguf")) w0) as ->.
  { destruct (rooted_entry_run w g Hn) as (_ & _ & ->). unfold bind. rewrite Hmk.
    destruct (_download_file (url g) (Path (name g +:+ ".gguf")) w0) as [[[]|e] w1];
      [|done].
    by destruct (mmproj g) as [[|a s]|]. }
  assert (∀ w' s, startswith "/" s = true -> locate w' (Path s) = PurePath.parts (Path s))
    as Hloc.
  { intros w' s Hs. unfold locate. by rewrite (join_rooted _ _ (parse_rooted s Hs)). }
  assert (startswith "/" (name g +:+ ".gguf") = true) as Hn'.
  { destruct (prefix_split _ _ Hn) as [p ->]. rewrite str_app_assoc.
    apply prefix_app_self. }
  destruct (after_mkdir _ _ _ Hmk) as (_ & Hdir & _). rewrite (Hloc w _ Hn) in Hdir.
  destruct (download_file_local_ok (url g) (Path (name g +:+ ".gguf")) w0 ks content)
    as [Hr Hf]; try done.
  { by rewrite (Hloc w0 _ Hn'). }
  rewrite (Hloc w0 _ Hn') in Hf.
  split; [done|]. split; [done|].
  apply (dir_preserved w0); [|done].
  apply steps_preserves_download_file.
Qed.

Lemma rooted_name_leaves_models_root_witness :
  (download_model_files (OfGGUF rooted_entry) offline_world).1 = Ok tt
  ∧ fs (download_model_files (OfGGUF rooted_entry) offline_world).2
      !! ["srv"; "elsewhere.gguf"] = Some (File "GGUF-tiny-weights")
  ∧ node_at (fs (download_model_files (OfGGUF rooted_entry) offline_world).2)
      ["srv"; "elsewhere"] = Some Dir.
Proof.
  apply (rooted_name_leaves_models_root offline_world rooted_entry
           (mkdir_parents_exist_ok (Path "/srv/elsewhere") offline_world).2
           ["srv"; "fixtures"; "tiny.gguf"] "GGUF-tiny-weights");
    try (vm_compute; reflexivity).
  vm_compute. intros [x H]. discriminate.
Defined.

(** ** The command on a valid manifest *)

Lemma ModelsConfig_ggufs d cfg :
  ModelsConfig_fields d = inr cfg ->
  ∃ gl, dict_get "ggufs" d = Some (PyList gl)
        ∧ Forall2 (fun e g => validate_model GGUFModelsConfig_fields e = inr g)
            gl (ggufs cfg).
Proof.
  unfold ModelsConfig_fields.
  pose proof (collection_inr "ggufs" (validate_model GGUFModelsConfig_fields) d) as Hg.
  destruct (required "ggufs" _ d) as [eg|gs], (required "safetensors" _ d) as [es|ss];
    unfold vap; simpl; try done.
  intros [= <-]. by apply Hg.
Qed.

Lemma for_each_parsed gl gs w :
  Forall2 (fun e g => validate_model GGUFModelsConfig_fields e = inr g) gl gs ->
  for_each gl (fun entry =>
    parsed_model <- parse_gguf entry ;; download_model_files (OfGGUF parsed_model)) w
  = for_each gs (fun g => download_model_files (OfGGUF g)) w.
Proof.
  intros H. revert w. induction H as [|e g gl gs He _ IH]; intros w.
  - done.
  - assert (parse_gguf e w = (Ok g, w)) as Hparse.
    { destruct e; try done. simpl in He. unfold parse_gguf. by rewrite He. }
    change (for_each (e :: gl) ?f w) with (bind (f e) (fun _ => for_each gl f) w).
    change (for_each (g :: gs) ?f w) with (bind (f g) (fun _ => for_each gs f) w).
    unfold bind at 1 2 4. rewrite Hparse.
    destruct (download_model_files (OfGGUF g) w) as [[[]|ex] w']; [|done].
    apply IH.
Qed.

Lemma valid_manifest_run json_loads models_file models_dir overwrite
    w w1 text d cfg :
  open_rb (os_path_join (cwd w) models_file) w = (Ok text, w1) ->
  json_loads text = Some (PyDict d) ->
  ModelsConfig_fields d = inr cfg ->
  download_models json_loads models_file models_dir overwrite w
  = for_each (ggufs cfg) (fun g => download_model_files (OfGGUF g))
      (add_event w1 (EvLog "Models validated.")).
Proof.
  intros Hopen Hloads Hval.
  destruct (ModelsConfig_ggufs d cfg Hval) as (gl & Hget & Hall).
  unfold download_models, bind at 1, os_getcwd.
  unfold bind at 1, _load_and_validate_models, bind at 1.
  rewrite Hopen, Hloads, Hval.
  unfold bind at 1, logger_info, emit, ret. unfold bind at 1, get_ggufs.
  rewrite Hget. simpl default. unfold ret.
  by apply for_each_parsed.
Qed.

(** ** An entry that raises *)

Lemma for_each_stops {A} (before : list A) x rest (body : A -> M unit) w w1 w2 e :
  for_each before body w = (Ok tt, w1) ->
  body x w1 = (Raise e, w2) ->
  for_each (before ++ x :: rest) body w = (Raise e, w2).
Proof.
  revert w. induction before as [|y before IH]; intros w Hbefore Hx.
  - injection Hbefore as <-.
    change (for_each ([] ++ x :: rest) body w)
      with (bind (body x) (fun _ => for_each rest body) w).
    unfold bind. by rewrite Hx.
  - change (for_each ((y :: before) ++ x :: rest) body w)
      with (bind (body y) (fun _ => for_each (before ++ x :: rest) body) w).
    change (for_each (y :: before) body w)
      with (bind (body y) (fun _ => for_each before body) w) in Hbefore.
    unfold bind in *. destruct (body y w) as [[[]|ey] wy]; [|done].
    by apply IH.
Qed.

Lemma raises_download_model_files_fetch g :
  raises_only fetch_exn (download_model_files (OfGGUF g)).
Proof.
  assert (∀ e, is_OSError e -> fetch_exn e) as Hos.
  { intros e He. split; [by left|]. by destruct He as [->|[->|[->| ->]]]. }
  unfold download_model_files.
  apply raises_bind; [by intros w e|]. intros root.
  apply raises_bind.
  { eapply raises_mono; [apply Hos|]. intros w. apply raises_mkdir_from. }
  intros _. apply raises_bind; [apply raises_download_file|].
  intros _. destruct (mmproj g) as [[|a s]|]; try apply raises_ret.
  apply raises_download_file.
Qed.

(** X10: the quantized entries are processed in turn, and the first one
    whose processing raises ends the command: the command raises that
    exception and leaves the world as that entry left it, so the entries
    after it are not looked at.  The exception is one of the operating
    system or a [ValueError], never one of the HTTP client. *)
Lemma raising_entry_ends_the_command json_loads models_file models_dir overwrite
    w w1 w2 w3 text d cfg before g rest e :
  open_rb (os_path_join (cwd w) models_file) w = (Ok text, w1) ->
  json_loads text = Some (PyDict d) ->
  ModelsConfig_fields d = inr cfg ->
  ggufs cfg = before ++ g :: rest ->
  for_each before (fun g => download_model_files (OfGGUF g))
    (add_event w1 (EvLog "Models validated.")) = (Ok tt, w2) ->
  download_model_files (OfGGUF g) w2 = (Raise e, w3) ->
  download_models json_loads models_file models_dir overwrite w = (Raise e, w3)
  ∧ (is_OSError e ∨ e = ValueError)
  ∧ is_RequestException e = false.
Proof.
  intros Hopen Hloads Hval Hsplit Hbefore Hg. split.
  - rewrite (valid_manifest_run json_loads models_file models_dir overwrite
               w w1 text d cfg Hopen Hloads Hval), Hsplit.
    by apply for_each_stops with w2.
  - apply (raises_download_model_files_fetch g w2 e). by rewrite Hg.
Qed.

Lemma raising_entry_ends_the_command_witness :
  (download_models (loads_table [(broken_first_text, PyDict broken_first_manifest)])
     "models.json" "models" false broken_first_world).1 = Raise FileNotFoundError
  ∧ fs (download_models (loads_table [(broken_first_text, PyDict broken_first_manifest)])
          "models.json" "models" false broken_first_world).2
      !! ["srv"; "models"; "gguf"; "tiny"] = None.
Proof.
  destruct (raising_entry_ends_the_command
              (loads_table [(broken_first_text, PyDict broken_first_manifest)])
              "models.json" "models" false broken_first_world
              (add_event broken_first_world (EvOpenRead ["srv"; "models.json"]))
              (add_event
                 (add_event broken_first_world (EvOpenRead ["srv"; "models.json"]))
                 (EvLog "Models validated."))
              (download_model_files (OfGGUF ghost_entry)
                 (add_event
                    (add_event broken_first_world (EvOpenRead ["srv"; "models.json"]))
                    (EvLog "Models validated."))).2
              broken_first_text broken_first_manifest
              {| ggufs := [ghost_entry; tiny_entry]; safetensors := [] |}
              [] ghost_entry [tiny_entry] FileNotFoundError)
    as [Hrun _]; try (vm_compute; reflexivity).
  rewrite Hrun. split; [reflexivity|]. vm_compute. reflexivity.
Defined.

(** ** The command, entry by entry *)

Lemma download_model_files_fetch_entry g w :
  download_model_files (OfGGUF g) w = fetch_entry (models_root w) g w.
Proof. reflexivity. Qed.

Lemma models_root_frame w w' : frame w w' -> models_root w' = models_root w.
Proof. intros (Hc & He & _). unfold models_root. by rewrite Hc, He. Qed.

Lemma for_each_fetch_entry root l w :
  models_root w = root ->
  for_each l (fun g => download_model_files (OfGGUF g)) w = for_each l (fetch_entry root) w.
Proof.
  revert w. induction l as [|g l IH]; intros w Hroot; [done|].
  change (for_each (g :: l) ?f w) with (bind (f g) (fun _ => for_each l f) w).
  unfold bind. rewrite download_model_files_fetch_entry, Hroot.
  pose proof (steps_preserves_download_model_files (OfGGUF g) w) as [Hf _ _].
  rewrite download_model_files_fetch_entry, Hroot in Hf.
  destruct (fetch_entry root g w) as [[[]|e] w1]; [|done].
  apply IH. simpl in Hf. by rewrite (models_root_frame w w1).
Qed.

Lemma for_each_resumes {A} (before : list A) x rest (body : A -> M unit) w w1 w2 :
  for_each before body w = (Ok tt, w1) ->
  body x w1 = (Ok tt, w2) ->
  for_each (before ++ x :: rest) body w = for_each rest body w2.
Proof.
  revert w. induction before as [|y before IH]; intros w Hbefore Hx.
  - injection Hbefore as <-.
    change (for_each ([] ++ x :: rest) body w)
      with (bind (body x) (fun _ => for_each rest body) w).
    unfold bind. by rewrite Hx.
  - change (for_each ((y :: before) ++ x :: rest) body w)
      with (bind (body y) (fun _ => for_each (before ++ x :: rest) body) w).
    change (for_each (y :: before) body w)
      with (bind (body y) (fun _ => for_each before body) w) in Hbefore.
    unfold bind in *. destruct (body y w) as [[[]|ey] wy]; [|done].
    by apply IH.
Qed.

(** A quantized entry with a plain name, a local source and no projector:
    its run returns. *)
Lemma entry_without_projector_returns w (g : GGUFModelsConfig) ks content :
  plain (name g) = true ->
  startswith "file://" (url g) = true ->
  locate_str w (str_remove "file://" (url g)) = Some ks ->
  needs_directory (str_remove "file://" (url g)) = false ->
  node_at (fs w) ks = Some (File content) ->
  let dk := locate w (models_root w) ++ [ModelType_value (gguf_model_type g); name g] in
  fs w !! (dk ++ [name g +:+ ".gguf"]) = None ->
  (mkdir_parents_exist_ok (entry_directory (models_root w) g) w).1 = Ok tt ->
  truthy (mmproj g) = false ->
  (download_model_files (OfGGUF g) w).1 = Ok tt.
Proof.
  intros Hn Hu Hks Hnd Hsrc dk Hnone Hmk Hm.
  pose proof (plain_no_slash _ Hn) as Hns.
  pose proof (plain_file "" (name g) eq_refl Hns) as Hpf. rewrite str_app_nil_l in Hpf.
  pose proof (entry_directory_located w g Hn) as Hdk. fold dk in Hdk.
  destruct (mkdir_parents_exist_ok _ w) as [[[]|e] w0] eqn:Emk; simpl in Hmk; [|done].
  destruct (after_mkdir _ _ _ Emk) as (Hp0 & Hdir0 & Hfs0). rewrite Hdk in Hdir0, Hfs0.
  assert (cwd w0 = cwd w) as Hc0 by (by destruct Hp0 as [[? _] _ _]).
  rewrite (download_gguf_run g w w0 Emk). unfold primary_destination.
  destruct (fetch_into_directory w0 (entry_directory (models_root w) g)
              (name g +:+ ".gguf") (url g) ks content) as [Hr1 _]; try done.
  { by rewrite (locate_same_cwd w w0), Hdk. }
  { rewrite (locate_same_cwd w w0), Hdk by done.
    rewrite Hfs0; [done|apply not_prefix_snoc]. }
  { by rewrite (locate_str_cwd w w0). }
  { by apply (node_at_preserved w w0). }
  destruct (_download_file (url g) _ w0) as [r1 w1]. simpl in *. subst r1.
  by destruct (mmproj g) as [[|a s]|].
Qed.

(** C1 (amended): handed a tensor-weights entry, [download_model_files]
    makes the directory of the family and raises [NotImplementedError] (it
    never returns).  But the command never hands it one: on a manifest
    that passes validation the run is the run of [download_model_files]
    over the entries of the quantized collection, in their order, and
    nothing else, whatever the tensor-weights collection holds; so no run
    of the command ends in [NotImplementedError], and on a manifest whose
    one quantized entry has a plain name, a local source and no projector
    the artifact is copied and the run returns, tensor-weights entries or
    not. *)
Theorem tensor_entries_are_never_dispatched :
  (∀ s w w0,
     mkdir_parents_exist_ok
       (models_root w </> Path (ModelType_value (safetensors_model_type s))) w = (Ok tt, w0) ->
     download_model_files (OfSafetensors s) w = (Raise NotImplementedError, w0))
  ∧ (∀ s w, ∃ e, (download_model_files (OfSafetensors s) w).1 = Raise e)
  ∧ (∀ json_loads models_file models_dir overwrite w,
       (download_models json_loads models_file models_dir overwrite w).1
       ≠ Raise NotImplementedError)
  ∧ (∀ json_loads models_file models_dir overwrite w w1 text d cfg,
       open_rb (os_path_join (cwd w) models_file) w = (Ok text, w1) ->
       json_loads text = Some (PyDict d) ->
       ModelsConfig_fields d = inr cfg ->
       let w' := add_event w1 (EvLog "Models validated.") in
       download_models json_loads models_file models_dir overwrite w
       = for_each (ggufs cfg) (fun g => download_model_files (OfGGUF g)) w'
       ∧ ∀ (g : GGUFModelsConfig) ks content,
           ggufs cfg = [g] ->
           plain (name g) = true ->
           startswith "file://" (url g) = true ->
           locate_str w' (str_remove "file://" (url g)) = Some ks ->
           needs_directory (str_remove "file://" (url g)) = false ->
           node_at (fs w') ks = Some (File content) ->
           let dk := locate w' (models_root w')
                     ++ [ModelType_value (gguf_model_type g); name g] in
           fs w' !! (dk ++ [name g +:+ ".gguf"]) = None ->
           (mkdir_parents_exist_ok (entry_directory (models_root w') g) w').1 = Ok tt ->
           truthy (mmproj g) = false ->
           (download_models json_loads models_file models_dir overwrite w).1 = Ok tt
           ∧ fs (download_models json_loads models_file models_dir overwrite w).2
               !! (dk ++ [name g +:+ ".gguf"]) = Some (File content)).
Proof.
  split; [|split; [|split]].
  - intros s w w0 Hmk. unfold download_model_files, bind.
    rewrite get_models_directory_run. by rewrite Hmk.
  - intros s w. unfold download_model_files, bind.
    rewrite get_models_directory_run.
    destruct (mkdir_parents_exist_ok _ w) as [[[]|e] w1]; by eexists.
  - intros json_loads f dir o w H.
    by apply (raises_download_models json_loads f dir o w _ H).
  - intros json_loads f dir o w w1 text d cfg Hopen Hloads Hval w'.
    pose proof (valid_manifest_run json_loads f dir o w w1 text d cfg Hopen Hloads Hval)
      as Hrun. fold w' in Hrun.
    split; [done|].
    intros g ks content Hg Hn Hu Hks Hnd Hsrc dk Hnone Hmk Hm.
    rewrite Hrun, Hg.
    change (for_each [g] ?f w') with (bind (f g) (fun _ => ret tt) w').
    unfold bind.
    pose proof (entry_without_projector_returns w' g ks content Hn Hu Hks Hnd Hsrc
                  Hnone Hmk Hm) as Hr.
    destruct (entry_files_land w' g ks content Hn Hu Hks Hnd Hsrc Hnone Hmk) as [Hf _].
    fold dk in Hf.
    destruct (download_model_files (OfGGUF g) w') as [[[]|e] w2]; [|done].
    by split.
Qed.

(** The manifest fixture, with its tensor-weights entry: the run copies
    the quantized artifact and returns. *)
Lemma tensor_entries_are_never_dispatched_witness :
  (download_models loads_fixture "models.json" "models" false manifest_world).1 = Ok tt
  ∧ fs (download_models loads_fixture "models.json" "models" false manifest_world).2
      !! ["srv"; "models"; "gguf"; "tiny"; "tiny.gguf"] = Some (File "GGUF-tiny-weights").
Proof.
  destruct (proj2 (proj2 (proj2 tensor_entries_are_never_dispatched))
              loads_fixture "models.json" "models" false manifest_world
              (add_event manifest_world (EvOpenRead ["srv"; "models.json"]))
              manifest_text
              [ ("ggufs", PyList [PyDict [("name", PyStr "tiny");
                                          ("description", PyStr "a tiny model");
                                          ("url", PyStr "file:///srv/fixtures/tiny.gguf")]]);
                ("safetensors", PyList [PyDict [("name", PyStr "big");
                                                ("description", PyStr "a big model")]]) ]
              {| ggufs := [tiny_entry]; safetensors := [tensor_entry] |})
    as [_ H]; [vm_compute; reflexivity..|].
  apply (H tiny_entry ["srv"; "fixtures"; "tiny.gguf"] "GGUF-tiny-weights");
    vm_compute; reflexivity.
Defined.

(** C9: the value of [--models-dir] changes nothing in a run: result,
    file system and trace are the same.  The models root every entry is
    resolved against, and so every directory made and every file written,
    is [MODELS_DIR] (by default ["models"]) under the working directory of
    the command: on a manifest that passes validation the run is the run
    of the quantized entries against that root. *)
Theorem models_dir_option_is_ignored json_loads models_file dir1 dir2 overwrite w :
  download_models json_loads models_file dir1 overwrite w
  = download_models json_loads models_file dir2 overwrite w
  ∧ (∀ w1 text d cfg,
       open_rb (os_path_join (cwd w) models_file) w = (Ok text, w1) ->
       json_loads text = Some (PyDict d) ->
       ModelsConfig_fields d = inr cfg ->
       download_models json_loads models_file dir1 overwrite w
       = for_each (ggufs cfg)
           (fetch_entry (Path (cwd w) </> Path (default "models" (environ w !! "MODELS_DIR"))))
           (add_event w1 (EvLog "Models validated."))).
Proof.
  split; [reflexivity|].
  intros w1 text d cfg Hopen Hloads Hval.
  rewrite (valid_manifest_run json_loads models_file dir1 overwrite w w1 text d cfg
             Hopen Hloads Hval).
  apply for_each_fetch_entry.
  destruct (open_rb_ok _ _ _ _ Hopen) as (k & _ & _ & _ & ->). reflexivity.
Qed.

(** [MODELS_DIR] is [store] and [--models-dir] is [elsewhere]: the
    artifact goes to [store]. *)
Lemma models_dir_option_is_ignored_witness :
  let run := download_models loads_fixture "models.json" "elsewhere" false store_world in
  run.1 = Ok tt
  ∧ fs run.2 !! ["srv"; "store"; "gguf"; "tiny"; "tiny.gguf"]
    = Some (File "GGUF-tiny-weights")
  ∧ fs run.2 !! ["srv"; "elsewhere"] = None
  ∧ fs run.2 !! ["srv"; "models"] = None.
Proof.
  cbv zeta.
  rewrite (proj2 (models_dir_option_is_ignored loads_fixture "models.json"
                    "elsewhere" "models" false store_world)
             (add_event store_world (EvOpenRead ["srv"; "models.json"]))
             manifest_text
             [ ("ggufs", PyList [PyDict [("name", PyStr "tiny");
                                         ("description", PyStr "a tiny model");
                                         ("url", PyStr "file:///srv/fixtures/tiny.gguf")]]);
               ("safetensors", PyList [PyDict [("name", PyStr "big");
                                               ("description", PyStr "a big model")]]) ]
             {| ggufs := [tiny_entry]; safetensors := [tensor_entry] |});
    vm_compute; repeat split; reflexivity.
Defined.

(** C10: [--overwrite] changes nothing in a run.  What is in the file
    system before a run is there after it, with [--overwrite] as without;
    when the run of the command comes to an entry that is in place (its
    directory and its artifacts are there), it logs that it skips them and
    goes on with the next entry: no request is sent, no file is opened,
    nothing is written; and when it comes to an entry whose primary
    artifact is there, it logs that it skips it and goes on with the
    projector of the entry, if it has one, and the next entries. *)
Theorem overwrite_option_is_ignored json_loads models_file models_dir w :
  download_models json_loads models_file models_dir true w
  = download_models json_loads models_file models_dir false w
  ∧ (∀ k n, fs w !! k = Some n ->
       fs (download_models json_loads models_file models_dir true w).2 !! k = Some n)
  ∧ (∀ w1 text d cfg before (g : GGUFModelsConfig) rest w2,
       open_rb (os_path_join (cwd w) models_file) w = (Ok text, w1) ->
       json_loads text = Some (PyDict d) ->
       ModelsConfig_fields d = inr cfg ->
       ggufs cfg = before ++ g :: rest ->
       for_each before (fun g => download_model_files (OfGGUF g))
         (add_event w1 (EvLog "Models validated.")) = (Ok tt, w2) ->
       (∀ k, k `prefix_of` locate w2 (entry_directory (models_root w2) g) ->
             node_at (fs w2) k = Some Dir) ->
       exists_at w2 (primary_destination (models_root w2) g) ->
       (match mmproj g with
        | Some (String _ _) => exists_at w2 (projector_destination (models_root w2) g)
        | _ => True
        end) ->
       let w3 := (download_model_files (OfGGUF g) w2).2 in
       download_models json_loads models_file models_dir true w
       = for_each rest (fun g => download_model_files (OfGGUF g)) w3
       ∧ fs w3 = fs w2
       ∧ Forall (eq (EvLog "File already exists, skipping download."))
           (events_since w2 w3))
  ∧ (∀ w1 text d cfg before (g : GGUFModelsConfig) rest w2 w0,
       open_rb (os_path_join (cwd w) models_file) w = (Ok text, w1) ->
       json_loads text = Some (PyDict d) ->
       ModelsConfig_fields d = inr cfg ->
       ggufs cfg = before ++ g :: rest ->
       for_each before (fun g => download_model_files (OfGGUF g))
         (add_event w1 (EvLog "Models validated.")) = (Ok tt, w2) ->
       mkdir_parents_exist_ok (entry_directory (models_root w2) g) w2 = (Ok tt, w0) ->
       exists_at w0 (primary_destination (models_root w2) g) ->
       download_models json_loads models_file models_dir true w
       = (match mmproj g with
          | Some (String _ _ as projector) =>
              _download_file projector (projector_destination (models_root w2) g)
          | _ => ret tt
          end ;;
          for_each rest (fun g => download_model_files (OfGGUF g)))
           (add_event w0 (EvLog "File already exists, skipping download."))).
Proof.
  split; [reflexivity|]. split; [|split]; cycle 2.
  - intros w1 text d cfg before g rest w2 w0 Hopen Hloads Hval Hsplit Hbefore Hmk Hprimary.
    rewrite (valid_manifest_run json_loads models_file models_dir true w w1 text d cfg
               Hopen Hloads Hval), Hsplit.
    clear Hopen Hloads Hval Hsplit. revert Hbefore.
    generalize (add_event w1 (EvLog "Models validated.")). intros wa.
    revert wa. induction before as [|y before IH]; intros wa Hbefore.
    + injection Hbefore as <-.
      change (for_each ([] ++ g :: rest) ?f wa)
        with (bind (f g) (fun _ => for_each rest f) wa).
      unfold bind at 1.
      rewrite (download_gguf_run g wa w0 Hmk), (download_file_present _ _ _ Hprimary).
      unfold bind. by destruct (mmproj g) as [[|a s]|].
    + change (for_each ((y :: before) ++ g :: rest) ?f wa)
        with (bind (f y) (fun _ => for_each (before ++ g :: rest) f) wa).
      change (for_each (y :: before) ?f wa)
        with (bind (f y) (fun _ => for_each before f) wa) in Hbefore.
      unfold bind in *.
      destruct (download_model_files (OfGGUF y) wa) as [[[]|ey] wy]; [|done].
      by apply IH.
  - intros k n Hk.
    by apply (steps_preserves_download_models json_loads models_file models_dir true w).
  - intros w1 text d cfg before g rest w2 Hopen Hloads Hval Hsplit Hbefore
      Hdirs Hprimary Hprojector w3.
    destruct (entry_in_place_run w2 g Hdirs Hprimary Hprojector) as (Hr & Hf & Hev).
    split; [|by split].
    rewrite (valid_manifest_run json_loads models_file models_dir true w w1 text d cfg
               Hopen Hloads Hval), Hsplit.
    apply (for_each_resumes before g rest _ _ w2 w3 Hbefore).
    subst w3. by destruct (download_model_files (OfGGUF g) w2) as [[[]|e] w4].
Qed.

(** The artifact of the manifest fixture is there, stale: a run with
    [--overwrite] reads the manifest, logs and leaves it. *)
Lemma overwrite_option_is_ignored_witness :
  let run := download_models loads_fixture "models.json" "models" true stale_world in
  run.1 = Ok tt
  ∧ fs run.2 !! ["srv"; "models"; "gguf"; "tiny"; "tiny.gguf"] = Some (File "stale")
  ∧ List.filter is_transfer (events_since stale_world run.2)
    = [EvOpenRead ["srv"; "models.json"]].
Proof.
  cbv zeta.
  set (w2 := add_event (add_event stale_world (EvOpenRead ["srv"; "models.json"]))
               (EvLog "Models validated.")).
  destruct (proj1 (proj2 (proj2 (overwrite_option_is_ignored loads_fixture "models.json"
                                   "models" stale_world)))
              (add_event stale_world (EvOpenRead ["srv"; "models.json"]))
              manifest_text
              [ ("ggufs", PyList [PyDict [("name", PyStr "tiny");
                                          ("description", PyStr "a tiny model");
                                          ("url", PyStr "file:///srv/fixtures/tiny.gguf")]]);
                ("safetensors", PyList [PyDict [("name", PyStr "big");
                                                ("description", PyStr "a big model")]]) ]
              {| ggufs := [tiny_entry]; safetensors := [tensor_entry] |}
              [] tiny_entry [] w2)
    as (Hrun & Hfs & Hev).
  - vm_compute. reflexivity.
  - vm_compute. reflexivity.
  - vm_compute. reflexivity.
  - reflexivity.
  - reflexivity.
  - change (locate w2 (entry_directory (models_root w2) tiny_entry))
      with ["srv"; "models"; "gguf"; "tiny"].
    do 4 (let k := fresh "k" in let Hk := fresh "Hk" in
          intros k Hk; pattern k;
          match goal with
          | |- ?P k => revert Hk; apply (prefix_of_cons_cases _ k _ P);
                       [by vm_compute|clear k]
          end).
    intros k ->%prefix_nil_inv. by vm_compute.
  - vm_compute. by eexists.
  - exact I.
  - rewrite Hrun. simpl for_each. unfold ret. simpl fst. simpl snd.
    split; [reflexivity|]. split.
    + rewrite Hfs. vm_compute. reflexivity.
    + vm_compute. reflexivity.
Defined.

